(** * winss: the filesystem access layer ([winss::FilesystemInterface])

    A shallow embedding of [lib/winss/filesystem_interface.cpp].

    Every member function of [FilesystemInterface] is a thin wrapper around
    a primitive of the C++ runtime ([std::ifstream], [std::ofstream],
    [std::experimental::filesystem]) or of the Win32 API ([CreateFile],
    [GetFinalPathNameByHandle], [CloseHandle]).  The primitives are the
    operations of a type class [Platform]; the member functions are written
    once, over any platform, as state-passing programs that either return a
    value or raise a C++ exception.  A small in-memory filesystem, [MemFS],
    gives an executable platform on which the functions can be run.

    The [VLOG] statements of the source only feed the logging sink and are
    left out. *)

From Stdlib Require Import String Ascii List ZArith Lia Bool Permutation Zwf.
From Equations Require Import Equations.
Import ListNotations.

Local Open Scope string_scope.
Local Open Scope Z_scope.

(** ** Values *)

(** [fs::path] is string-like; [operator+=] and [string()] are the identity
    on the text. *)
Definition path := string.

(** [std::errc] values carried by a [fs::filesystem_error]. *)
Inductive errc : Type :=
| permission_denied
| no_such_file_or_directory
| file_exists
| not_a_directory
| is_a_directory
| directory_not_empty
| no_space_on_device
| io_error.

(** The exceptions a primitive can raise: [fs::filesystem_error], which is
    how [std::experimental::filesystem] reports a failure of the operating
    system, and any other class derived from [std::exception] (for example
    [std::bad_alloc]). *)
Inductive exception : Type :=
| filesystem_error (ec : errc)
| other_std_exception.

(** [catch (const std::exception&)] *)
Definition catches_std_exception (e : exception) : bool := true.

(** [catch (const fs::filesystem_error&)] *)
Definition catches_filesystem_error (e : exception) : bool :=
  match e with
  | filesystem_error _ => true
  | other_std_exception => false
  end.

(** [fs::file_type], the part of [fs::file_status] the code looks at. *)
Inductive file_type : Type :=
| type_none
| type_not_found
| type_regular
| type_directory
| type_symlink
| type_block
| type_character
| type_fifo
| type_socket
| type_unknown.

Definition file_status := file_type.

Definition status_known (s : file_status) : bool :=
  match s with type_none => false | _ => true end.

(** [fs::exists(file_status)] *)
Definition fs_exists (s : file_status) : bool :=
  status_known s && match s with type_not_found => false | _ => true end.

(** [fs::is_directory(file_status)] *)
Definition fs_is_directory (s : file_status) : bool :=
  match s with type_directory => true | _ => false end.

(** [fs::is_regular_file(file_status)] *)
Definition fs_is_regular_file (s : file_status) : bool :=
  match s with type_regular => true | _ => false end.

(** State of a stream when it is closed.  A stream reports failure through
    these bits; with the default exception mask, which the source never
    changes, it does not throw. *)
Inductive iostate : Type := goodbit | failbit | badbit.

(** A [fs::directory_entry] is identified by its path. *)
Definition directory_entry := path.
Definition entry_path (e : directory_entry) : path := e.

(** Win32 [HANDLE] and [DWORD]. *)
Definition HANDLE := Z.
Definition INVALID_HANDLE_VALUE : HANDLE := -1.

Definition DWORD := Z.
Definition DWORD_modulus : Z := 4294967296.
Definition to_DWORD (z : Z) : DWORD := z mod DWORD_modulus.

(** What [outfile << std::endl] appends. *)
Definition endl : string := String (ascii_of_nat 10) EmptyString.

Definition NUL : ascii := ascii_of_nat 0.

(** [std::vector<char>::resize(n)] *)
Definition resize (v : list ascii) (n : nat) : list ascii :=
  firstn n v ++ repeat NUL (n - length v).

(** ** Programs: state passing with exceptions *)

Inductive outcome (W A : Type) : Type :=
| Return (a : A) (w : W)
| Throw (e : exception) (w : W).
Arguments Return {W A} a w.
Arguments Throw {W A} e w.

Definition M (W A : Type) : Type := W -> outcome W A.

Definition outcome_world {W A} (o : outcome W A) : W :=
  match o with Return _ w => w | Throw _ w => w end.

(** ** The platform *)

Class Platform (W : Type) : Type := {
  (** [std::ifstream infile{path}], the characters of its
      [istreambuf_iterator] range, [infile.close()].  A stream that failed
      to open yields no character. *)
  ifstream_read : path -> M W string;
  (** [std::ofstream outfile(path, out | trunc)], [outfile << data],
      [outfile.close()]; the result is the state of the stream, which the
      source never inspects. *)
  ofstream_write : path -> string -> M W iostate;
  (** [fs::current_path(dir)] *)
  fs_current_path : path -> M W unit;
  (** [fs::status(path)] *)
  fs_status : path -> M W file_status;
  (** [fs::create_directory(dir)] *)
  fs_create_directory : path -> M W bool;
  (** [fs::rename(from, to)] *)
  fs_rename : path -> path -> M W unit;
  (** [fs::remove(path)]: [true] iff something was removed. *)
  fs_remove : path -> M W bool;
  (** [fs::canonical(path)] *)
  fs_canonical : path -> M W path;
  (** [fs::directory_iterator(path)]: the entries of the scan. *)
  fs_directory_iterator : path -> M W (list directory_entry);
  (** [entry.status()] *)
  directory_entry_status : directory_entry -> M W file_status;
  (** [CreateFile(name, GENERIC_READ, FILE_SHARE_READ | FILE_SHARE_WRITE,
      NULL, OPEN_EXISTING, FILE_FLAG_BACKUP_SEMANTICS, NULL)] *)
  CreateFile : string -> W -> HANDLE * W;
  (** [GetFinalPathNameByHandle(file, buffer, size, VOLUME_NAME_DOS)]: the
      returned length and the buffer as the call leaves it. *)
  GetFinalPathNameByHandle :
    HANDLE -> list ascii -> DWORD -> W -> (Z * list ascii) * W;
  (** [CloseHandle(file)] *)
  CloseHandle : HANDLE -> W -> bool * W
}.

(** [bufsize < len < 2^32] is the order along which the buffer-sizing loop
    of [CanonicalUncPath] advances.  The accessibility proof is guarded so
    that closed runs of the loop compute. *)
#[local] Instance Zwf_up_WellFounded (n : Z) : WellFounded (Zwf_up n) :=
  Acc_intro_generator 8 (Zwf_up_well_founded n).

(** ** [winss::FilesystemInterface] *)

Section FilesystemInterface.

Context {W : Type} {P : Platform W}.

Definition Read (p : path) : M W string := fun w =>
  match ifstream_read p w with
  | Return value w1 => Return value w1
  | Throw e w1 =>
      if catches_std_exception e then Return "" w1 else Throw e w1
  end.

Definition Rename (from to : path) : M W bool := fun w =>
  match fs_rename from to w with
  | Return _ w1 => Return true w1
  | Throw e w1 =>
      if catches_filesystem_error e then Return false w1 else Throw e w1
  end.

Definition Write (p : path) (content : string) : M W bool := fun w =>
  let temp_path := p ++ ".new" in
  match ofstream_write temp_path (content ++ endl) w with
  | Return _ w1 => Rename temp_path p w1
  | Throw e w1 =>
      if catches_std_exception e then Return false w1 else Throw e w1
  end.

Definition ChangeDirectory (dir : path) : M W bool := fun w =>
  match fs_current_path dir w with
  | Return _ w1 => Return true w1
  | Throw e w1 =>
      if catches_filesystem_error e then Return false w1 else Throw e w1
  end.

Definition DirectoryExists (dir : path) : M W bool := fun w =>
  match fs_status dir w with
  | Return dir_status w1 =>
      Return (fs_exists dir_status && fs_is_directory dir_status) w1
  | Throw e w1 =>
      if catches_filesystem_error e then Return false w1 else Throw e w1
  end.

Definition CreateDirectory (dir : path) : M W bool := fun w =>
  let handler (e : exception) (w' : W) : outcome W bool :=
    if catches_filesystem_error e then Return false w' else Throw e w' in
  match DirectoryExists dir w with
  | Return true w1 => Return true w1
  | Return false w1 =>
      match fs_create_directory dir w1 with
      | Return true w2 => Return true w2
      | Return false w2 => Return false w2
      | Throw e w2 => handler e w2
      end
  | Throw e w1 => handler e w1
  end.

Definition Remove (p : path) : M W bool := fun w =>
  match fs_remove p w with
  | Return _ w1 => Return true w1
  | Throw e w1 =>
      if catches_filesystem_error e then Return false w1 else Throw e w1
  end.

Definition FileExists (p : path) : M W bool := fun w =>
  match fs_status p w with
  | Return dir_status w1 =>
      Return (fs_exists dir_status && fs_is_regular_file dir_status) w1
  | Throw e w1 =>
      if catches_filesystem_error e then Return false w1 else Throw e w1
  end.

Definition Absolute (p : path) : M W path := fun w =>
  match fs_canonical p w with
  | Return canonical w1 => Return canonical w1
  | Throw e w1 =>
      if catches_std_exception e then Return p w1 else Throw e w1
  end.

(** The [while (true)] loop of [CanonicalUncPath], entered with the handle
    open.  [bufsize] grows strictly at every turn and is a [DWORD], which
    bounds the number of turns. *)
Equations? query_final_path (p : path) (file : HANDLE)
    (pathbuf : list ascii) (bufsize : DWORD) (w : W) : outcome W path
    by wf bufsize (Zwf_up DWORD_modulus) :=
  query_final_path p file pathbuf bufsize w
    with GetFinalPathNameByHandle file
           (resize pathbuf (Z.to_nat (to_DWORD (bufsize + 1)))) bufsize w := {
    | ((len, pathbuf1), w1) with Z.eq_dec (to_DWORD len) 0 := {
        | left _ =>
            let (_, w2) := CloseHandle file w1 in
            Absolute p w2
        | right _ with Z_le_dec (to_DWORD len) bufsize := {
            | left _ =>
                let (_, w2) := CloseHandle file w1 in
                Return (string_of_list_ascii pathbuf1) w2
            | right _ =>
                query_final_path p file pathbuf1 (to_DWORD len) w1 } } }.
Proof.
  unfold Zwf_up, to_DWORD in *.
  pose proof (Z.mod_pos_bound len DWORD_modulus eq_refl).
  lia.
Qed.

Definition CanonicalUncPath (p : path) : M W path := fun w =>
  let path_str := p in
  let (file, w1) := CreateFile path_str w in
  if file =? INVALID_HANDLE_VALUE then
    let (_, w2) := CloseHandle file w1 in
    Absolute p w2
  else
    query_final_path p file []
      (to_DWORD (Z.of_nat (String.length path_str) * 2)) w1.

(** The body of the range-[for] of [GetDirectories].  The vector
    [directories] lives outside the [try] block, so it is returned next to
    the way the loop ended. *)
Fixpoint scan_directories (entries : list directory_entry)
    (directories : list path) (w : W) : list path * outcome W unit :=
  match entries with
  | [] => (directories, Return tt w)
  | entry :: rest =>
      match directory_entry_status entry w with
      | Return st w1 =>
          if fs_is_directory st
          then scan_directories rest (directories ++ [entry_path entry]) w1
          else scan_directories rest directories w1
      | Throw e w1 => (directories, Throw e w1)
      end
  end.

Definition GetDirectories (p : path) : M W (list path) := fun w =>
  let directories : list path := [] in
  match fs_directory_iterator p w with
  | Return entries w1 =>
      match scan_directories entries directories w1 with
      | (directories, Return _ w2) => Return directories w2
      | (directories, Throw e w2) =>
          if catches_filesystem_error e then Return directories w2
          else Throw e w2
      end
  | Throw e w1 =>
      if catches_filesystem_error e then Return directories w1
      else Throw e w1
  end.

Fixpoint scan_files (entries : list directory_entry)
    (files : list path) (w : W) : list path * outcome W unit :=
  match entries with
  | [] => (files, Return tt w)
  | entry :: rest =>
      match directory_entry_status entry w with
      | Return st w1 =>
          if negb (fs_is_directory st)
          then scan_files rest (files ++ [entry_path entry]) w1
          else scan_files rest files w1
      | Throw e w1 => (files, Throw e w1)
      end
  end.

Definition GetFiles (p : path) : M W (list path) := fun w =>
  let files : list path := [] in
  match fs_directory_iterator p w with
  | Return entries w1 =>
      match scan_files entries files w1 with
      | (files, Return _ w2) => Return files w2
      | (files, Throw e w2) =>
          if catches_filesystem_error e then Return files w2
          else Throw e w2
      end
  | Throw e w1 =>
      if catches_filesystem_error e then Return files w1
      else Throw e w1
  end.

End FilesystemInterface.

(** ** A reference platform: an in-memory filesystem

    [MemFS] keeps the files and directories of one volume in a table keyed
    by absolute path, with ["/"] as separator.  Three things let it exhibit
    the failures the real platform has: a list of paths to which access is
    denied, the number of bytes the device can still take, and a table of
    open handles. *)

Module MemFS.

Inductive node : Type :=
| File (data : string)
| Dir.

Record state : Type := mkState {
  nodes : list (path * node);
  (** the working directory, without its leading separator *)
  cwd_tail : string;
  denied : list path;
  free_space : nat;
  handles : list (HANDLE * path);
  next_handle : HANDLE
}.

Definition is_absolute (p : path) : bool :=
  match p with
  | String c _ => Ascii.eqb c "/"
  | EmptyString => false
  end.

(** A relative path is read from the working directory. *)
Definition resolve (w : state) (p : path) : path :=
  if is_absolute p then p
  else if String.eqb (cwd_tail w) "" then String "/" p
  else String "/" (cwd_tail w ++ String "/" p).

Fixpoint before_last_separator (s : string) : option string :=
  match s with
  | EmptyString => None
  | String c rest =>
      match before_last_separator rest with
      | Some pre => Some (String c pre)
      | None => if Ascii.eqb c "/" then Some EmptyString else None
      end
  end.

Definition parent_path (q : path) : path :=
  match before_last_separator q with
  | Some EmptyString => "/"
  | Some pre => pre
  | None => ""
  end.

Fixpoint lookup (q : path) (l : list (path * node)) : option node :=
  match l with
  | [] => None
  | (k, n) :: rest => if String.eqb k q then Some n else lookup q rest
  end.

Definition remove_key (q : path) (l : list (path * node)) :
    list (path * node) :=
  filter (fun kn => negb (String.eqb (fst kn) q)) l.

Definition set_node (q : path) (n : node) (l : list (path * node)) :
    list (path * node) :=
  remove_key q l ++ [(q, n)].

Definition is_denied (w : state) (q : path) : bool :=
  existsb (String.eqb q) (denied w).

Definition is_dir (w : state) (q : path) : bool :=
  match lookup q (nodes w) with Some Dir => true | _ => false end.

Definition children (w : state) (q : path) : list path :=
  filter (fun k => String.eqb (parent_path k) q && negb (String.eqb k q))
         (map fst (nodes w)).

Definition with_nodes (w : state) (l : list (path * node)) : state :=
  mkState l (cwd_tail w) (denied w) (free_space w) (handles w)
          (next_handle w).

Definition status_of (w : state) (q : path) : file_status :=
  match lookup q (nodes w) with
  | None => type_not_found
  | Some (File _) => type_regular
  | Some Dir => type_directory
  end.

Definition status (p : path) : M state file_status := fun w =>
  let q := resolve w p in
  if is_denied w q then Throw (filesystem_error permission_denied) w
  else Return (status_of w q) w.

(** A stream that cannot be opened yields no character and raises
    nothing. *)
Definition read_stream (p : path) : M state string := fun w =>
  let q := resolve w p in
  if is_denied w q then Return "" w
  else match lookup q (nodes w) with
       | Some (File data) => Return data w
       | _ => Return "" w
       end.

(** Opening truncates; the device then takes as many bytes as it has room
    for.  Failure to open sets [failbit], a short write sets [badbit];
    neither raises. *)
Definition write_stream (p : path) (data : string) : M state iostate :=
  fun w =>
  let q := resolve w p in
  if is_denied w q || is_dir w q || negb (is_dir w (parent_path q))
  then Return failbit w
  else
    let written := substring 0 (free_space w) data in
    let w1 :=
      mkState (set_node q (File written) (nodes w)) (cwd_tail w) (denied w)
              (free_space w - String.length written) (handles w)
              (next_handle w) in
    Return (if (String.length data <=? free_space w)%nat
            then goodbit else badbit) w1.

Definition current_path (p : path) : M state unit := fun w =>
  let q := resolve w p in
  if is_denied w q then Throw (filesystem_error permission_denied) w
  else if is_dir w q then
    Return tt (mkState (nodes w)
                       (match q with String _ t => t | EmptyString => "" end)
                       (denied w) (free_space w) (handles w) (next_handle w))
  else Throw (filesystem_error no_such_file_or_directory) w.

Definition create_directory (p : path) : M state bool := fun w =>
  let q := resolve w p in
  if is_denied w q then Throw (filesystem_error permission_denied) w
  else match lookup q (nodes w) with
       | Some Dir => Return false w
       | Some (File _) => Throw (filesystem_error file_exists) w
       | None =>
           if is_dir w (parent_path q)
           then Return true (with_nodes w (set_node q Dir (nodes w)))
           else Throw (filesystem_error no_such_file_or_directory) w
       end.

(** The key of a node after [from] has been renamed to [to]. *)
Definition rebase (from to k : path) : path :=
  if String.eqb k from then to
  else if String.prefix (from ++ "/") k
       then to ++ substring (String.length from)
                            (String.length k - String.length from) k
       else k.

Definition rename (from to : path) : M state unit := fun w =>
  let qf := resolve w from in
  let qt := resolve w to in
  let moved :=
    with_nodes w (map (fun kn => (rebase qf qt (fst kn), snd kn))
                      (remove_key qt (nodes w))) in
  if is_denied w qf || is_denied w qt
  then Throw (filesystem_error permission_denied) w
  else match lookup qf (nodes w) with
       | None => Throw (filesystem_error no_such_file_or_directory) w
       | Some n =>
           if String.eqb qf qt then Return tt w
           else if negb (is_dir w (parent_path qt))
           then Throw (filesystem_error no_such_file_or_directory) w
           else match n, lookup qt (nodes w) with
                | File _, Some Dir =>
                    Throw (filesystem_error is_a_directory) w
                | Dir, Some (File _) =>
                    Throw (filesystem_error not_a_directory) w
                | Dir, Some Dir =>
                    Throw (filesystem_error file_exists) w
                | _, _ => Return tt moved
                end
       end.

Definition remove (p : path) : M state bool := fun w =>
  let q := resolve w p in
  if is_denied w q then Throw (filesystem_error permission_denied) w
  else match lookup q (nodes w) with
       | None => Return false w
       | Some (File _) =>
           Return true (with_nodes w (remove_key q (nodes w)))
       | Some Dir =>
           match children w q with
           | [] => Return true (with_nodes w (remove_key q (nodes w)))
           | _ :: _ => Throw (filesystem_error directory_not_empty) w
           end
       end.

(** [fs::canonical] makes its argument absolute against the current path
    first, and the empty path made absolute is the current path itself. *)
Definition canonical (p : path) : M state path := fun w =>
  let q := if String.eqb p "" then String "/" (cwd_tail w)
           else resolve w p in
  if is_denied w q then Throw (filesystem_error permission_denied) w
  else match lookup q (nodes w) with
       | None => Throw (filesystem_error no_such_file_or_directory) w
       | Some _ => Return q w
       end.

Definition directory_iterator (p : path) : M state (list directory_entry) :=
  fun w =>
  let q := resolve w p in
  if is_denied w q then Throw (filesystem_error permission_denied) w
  else if is_dir w q then Return (children w q) w
  else Throw (filesystem_error not_a_directory) w.

Definition entry_status (e : directory_entry) : M state file_status :=
  status e.

Fixpoint handle_path (h : HANDLE) (l : list (HANDLE * path)) : option path :=
  match l with
  | [] => None
  | (k, q) :: rest => if k =? h then Some q else handle_path h rest
  end.

Definition create_file (name : string) (w : state) : HANDLE * state :=
  let q := resolve w name in
  if is_denied w q then (INVALID_HANDLE_VALUE, w)
  else match lookup q (nodes w) with
       | None => (INVALID_HANDLE_VALUE, w)
       | Some _ =>
           (next_handle w,
            mkState (nodes w) (cwd_tail w) (denied w) (free_space w)
                    ((next_handle w, q) :: handles w) (next_handle w + 1))
       end.

(** The name a handle resolves to, in the form the volume reports it. *)
Definition final_name (q : path) : string := "\\?\C:" ++ q.

(** The string and its terminator are stored when the buffer has room for
    both; otherwise the needed size, terminator included, is returned. *)
Definition get_final_path_name (h : HANDLE) (buffer : list ascii)
    (size : DWORD) (w : state) : (Z * list ascii) * state :=
  match handle_path h (handles w) with
  | None => ((0, buffer), w)
  | Some q =>
      let s := list_ascii_of_string (final_name q) in
      let n := Z.of_nat (length s) in
      if n <? size
      then ((n, (s ++ NUL :: skipn (S (length s)) buffer)%list), w)
      else ((n + 1, buffer), w)
  end.

Definition close_handle (h : HANDLE) (w : state) : bool * state :=
  match handle_path h (handles w) with
  | None => (false, w)
  | Some _ =>
      (true,
       mkState (nodes w) (cwd_tail w) (denied w) (free_space w)
               (filter (fun kq => negb (fst kq =? h)) (handles w))
               (next_handle w))
  end.

#[global] Instance platform : Platform state := {
  ifstream_read := read_stream;
  ofstream_write := write_stream;
  fs_current_path := current_path;
  fs_status := status;
  fs_create_directory := create_directory;
  fs_rename := rename;
  fs_remove := remove;
  fs_canonical := canonical;
  fs_directory_iterator := directory_iterator;
  directory_entry_status := entry_status;
  CreateFile := create_file;
  GetFinalPathNameByHandle := get_final_path_name;
  CloseHandle := close_handle
}.

(** A volume with a directory [/srv] holding two service directories and a
    file, and room for a thousand bytes. *)
Definition volume : state :=
  mkState [("/", Dir); ("/srv", Dir); ("/srv/web", Dir);
           ("/srv/notes.txt", File "todo"); ("/srv/db", Dir)]
          "srv" [] 1000 [] 100.

(** The same volume when access to [/srv/notes.txt] is denied. *)
Definition locked_volume : state :=
  mkState (nodes volume) (cwd_tail volume) ["/srv/notes.txt"]
          (free_space volume) (handles volume) (next_handle volume).

(** The same volume when the device has room for three more bytes. *)
Definition full_volume : state :=
  mkState (nodes volume) (cwd_tail volume) (denied volume) 3
          (handles volume) (next_handle volume).

End MemFS.

(** ** Classifying the entries of a scan

    [st] gives the status of each entry; an entry goes to
    [GetDirectories] when [fs::is_directory] holds of it and to [GetFiles]
    otherwise. *)

Definition listed_as_directory (st : directory_entry -> file_status)
    (e : directory_entry) : bool :=
  fs_is_directory (st e).

Definition listed_as_file (st : directory_entry -> file_status)
    (e : directory_entry) : bool :=
  negb (fs_is_directory (st e)).

(** ** Observing the Win32 calls

    [traced P] runs on the platform [P] and records, in order, every call
    that opens, queries or closes a handle, and every call of
    [fs::canonical]. *)

Inductive event : Type :=
| EvCreateFile (name : string) (h : HANDLE)
| EvGetFinalPathNameByHandle (h : HANDLE) (size : DWORD) (len : Z)
| EvCloseHandle (h : HANDLE)
| EvCanonical (p : path).

Definition untraced {W A} (m : M W A) : M (W * list event) A := fun s =>
  match m (fst s) with
  | Return a w => Return a (w, snd s)
  | Throw e w => Throw e (w, snd s)
  end.

Definition recorded {W A} (ev : event) (m : M W A) : M (W * list event) A :=
  fun s =>
  match m (fst s) with
  | Return a w => Return a (w, (snd s ++ [ev])%list)
  | Throw e w => Throw e (w, (snd s ++ [ev])%list)
  end.

Definition traced {W} (P : Platform W) : Platform (W * list event) := {|
  ifstream_read p := untraced (ifstream_read p);
  ofstream_write p data := untraced (ofstream_write p data);
  fs_current_path p := untraced (fs_current_path p);
  fs_status p := untraced (fs_status p);
  fs_create_directory p := untraced (fs_create_directory p);
  fs_rename from to := untraced (fs_rename from to);
  fs_remove p := untraced (fs_remove p);
  fs_canonical p := recorded (EvCanonical p) (fs_canonical p);
  fs_directory_iterator p := untraced (fs_directory_iterator p);
  directory_entry_status e := untraced (directory_entry_status e);
  CreateFile name s :=
    let (h, w) := CreateFile name (fst s) in
    (h, (w, (snd s ++ [EvCreateFile name h])%list));
  GetFinalPathNameByHandle h buffer size s :=
    let '((len, buffer1), w) :=
      GetFinalPathNameByHandle h buffer size (fst s) in
    ((len, buffer1),
     (w, (snd s ++ [EvGetFinalPathNameByHandle h size len])%list));
  CloseHandle h s :=
    let (ok, w) := CloseHandle h (fst s) in
    (ok, (w, (snd s ++ [EvCloseHandle h])%list))
|}.

Definition queries (h : HANDLE) (ev : event) : Prop :=
  match ev with
  | EvGetFinalPathNameByHandle h' _ _ => h' = h
  | _ => False
  end.

(** ** What the code relies on from [std::experimental::filesystem] *)

(** [fs::canonical]: a path that is not empty and does not exist is an
    error (the empty path stands for the current path), an error leaves the
    filesystem as it was, and the result is itself canonical. *)
Record canonical_contract {W} (P : Platform W) : Prop := {
  canonical_missing : forall p w st,
    p <> "" ->
    fs_status p w = Return st w -> fs_exists st = false ->
    exists ec, fs_canonical p w = Throw (filesystem_error ec) w;
  canonical_error_pure : forall p w e w1,
    fs_canonical p w = Throw e w1 -> w1 = w;
  canonical_idempotent : forall p w q w1,
    fs_canonical p w = Return q w1 -> fs_canonical q w1 = Return q w1
}.

(** [fs::status] only observes, and a directory that [fs::create_directory]
    reports as created is there. *)
Record directory_contract {W} (P : Platform W) : Prop := {
  status_pure : forall p w o,
    fs_status p w = o -> outcome_world o = w;
  create_directory_post : forall d w w1,
    fs_create_directory d w = Return true w1 ->
    fs_status d w1 = Return type_directory w1
}.

Section Runs.

Context {W : Type} {P : Platform W}.

(** The turns of the buffer-sizing loop in which the buffer was too
    small: from one loop state to a later one. *)
Inductive grows_to (file : HANDLE) :
    list ascii * DWORD * W -> list ascii * DWORD * W -> Prop :=
| grows_refl : forall s, grows_to file s s
| grows_step : forall pathbuf bufsize w len pathbuf1 w1 s,
    GetFinalPathNameByHandle file
      (resize pathbuf (Z.to_nat (to_DWORD (bufsize + 1)))) bufsize w
      = ((len, pathbuf1), w1) ->
    to_DWORD len <> 0 ->
    bufsize < to_DWORD len ->
    grows_to file (pathbuf1, to_DWORD len, w1) s ->
    grows_to file (pathbuf, bufsize, w) s.

(** An operation lets a platform failure through when it ends by raising
    a [fs::filesystem_error]. *)
Definition propagates_failure {A} (o : outcome W A) : Prop :=
  exists ec w, o = Throw (filesystem_error ec) w.

(** The claim that the listing survives a per-entry error: whatever entry
    of the scan can be classified as a directory is in the result of
    [GetDirectories]. *)
Definition per_entry_skip : Prop :=
  forall p w entries w1 e w2 w3 directories,
    fs_directory_iterator p w = Return entries w1 ->
    In e entries ->
    directory_entry_status e w1 = Return type_directory w2 ->
    GetDirectories p w = Return directories w3 ->
    In (entry_path e) directories.

(** The claim that [Absolute] gives back every path that does not
    exist. *)
Definition missing_path_comes_back : Prop :=
  forall p w st,
    fs_status p w = Return st w -> fs_exists st = false ->
    Absolute p w = Return p w.

(** The claim that every child of a directory is in one of the two
    listings. *)
Definition every_child_is_listed : Prop :=
  forall p w entries w1 directories w2 files w3 child,
    fs_directory_iterator p w = Return entries w1 ->
    GetDirectories p w = Return directories w2 ->
    GetFiles p w = Return files w3 ->
    In child (map entry_path entries) ->
    In child directories \/ In child files.

(** The claim that [CreateDirectory] answers [true] twice in a row
    whatever the path. *)
Definition CreateDirectory_twice_true : Prop :=
  forall d w, exists w1 w2,
    CreateDirectory d w = Return true w1 /\
    CreateDirectory d w1 = Return true w2.

End Runs.

(** ** A platform on which every primitive fails

    Every C++ primitive raises [e]; [CreateFile] gives the invalid handle
    and the other Win32 calls report failure. *)
Definition failing_platform (e : exception) : Platform unit := {|
  ifstream_read _ := Throw e;
  ofstream_write _ _ := Throw e;
  fs_current_path _ := Throw e;
  fs_status _ := Throw e;
  fs_create_directory _ := Throw e;
  fs_rename _ _ := Throw e;
  fs_remove _ := Throw e;
  fs_canonical _ := Throw e;
  fs_directory_iterator _ := Throw e;
  directory_entry_status _ := Throw e;
  CreateFile _ w := (INVALID_HANDLE_VALUE, w);
  GetFinalPathNameByHandle _ buffer _ w := ((0, buffer), w);
  CloseHandle _ w := (false, w)
|}.

(** ** Absorbing platform failures *)

(** No operation ends by raising a [fs::filesystem_error]. *)
Record absorbs_failures {W} (P : Platform W) : Prop := {
  Read_absorbs : forall p w, ~ propagates_failure (Read p w);
  Write_absorbs : forall p content w,
    ~ propagates_failure (Write p content w);
  ChangeDirectory_absorbs : forall dir w,
    ~ propagates_failure (ChangeDirectory dir w);
  DirectoryExists_absorbs : forall dir w,
    ~ propagates_failure (DirectoryExists dir w);
  FileExists_absorbs : forall p w, ~ propagates_failure (FileExists p w);
  CreateDirectory_absorbs : forall dir w,
    ~ propagates_failure (CreateDirectory dir w);
  Rename_absorbs : forall from to w,
    ~ propagates_failure (Rename from to w);
  Remove_absorbs : forall p w, ~ propagates_failure (Remove p w);
  Absolute_absorbs : forall p w, ~ propagates_failure (Absolute p w);
  CanonicalUncPath_absorbs : forall p w,
    ~ propagates_failure (CanonicalUncPath p w);
  GetDirectories_absorbs : forall p w,
    ~ propagates_failure (GetDirectories p w);
  GetFiles_absorbs : forall p w, ~ propagates_failure (GetFiles p w)
}.

(** What each operation returns when the primitive under it fails. *)
Record returns_sentinels {W} (P : Platform W) : Prop := {
  Read_sentinel : forall p w e w1,
    ifstream_read p w = Throw e w1 -> Read p w = Return "" w1;
  Write_sentinel_stream : forall p content w e w1,
    ofstream_write (p ++ ".new") (content ++ endl) w = Throw e w1 ->
    Write p content w = Return false w1;
  Write_sentinel_rename : forall p content w s w1 ec w2,
    ofstream_write (p ++ ".new") (content ++ endl) w = Return s w1 ->
    fs_rename (p ++ ".new") p w1 = Throw (filesystem_error ec) w2 ->
    Write p content w = Return false w2;
  ChangeDirectory_sentinel : forall dir w ec w1,
    fs_current_path dir w = Throw (filesystem_error ec) w1 ->
    ChangeDirectory dir w = Return false w1;
  DirectoryExists_sentinel : forall dir w ec w1,
    fs_status dir w = Throw (filesystem_error ec) w1 ->
    DirectoryExists dir w = Return false w1;
  FileExists_sentinel : forall p w ec w1,
    fs_status p w = Throw (filesystem_error ec) w1 ->
    FileExists p w = Return false w1;
  CreateDirectory_sentinel : forall dir w w1 ec w2,
    DirectoryExists dir w = Return false w1 ->
    fs_create_directory dir w1 = Throw (filesystem_error ec) w2 ->
    CreateDirectory dir w = Return false w2;
  Rename_sentinel : forall from to w ec w1,
    fs_rename from to w = Throw (filesystem_error ec) w1 ->
    Rename from to w = Return false w1;
  Remove_sentinel : forall p w ec w1,
    fs_remove p w = Throw (filesystem_error ec) w1 ->
    Remove p w = Return false w1;
  Absolute_sentinel : forall p w e w1,
    fs_canonical p w = Throw e w1 -> Absolute p w = Return p w1;
  CanonicalUncPath_sentinel : forall p w w1,
    CreateFile p w = (INVALID_HANDLE_VALUE, w1) ->
    CanonicalUncPath p w =
    Absolute p (snd (CloseHandle INVALID_HANDLE_VALUE w1));
  GetDirectories_sentinel_start : forall p w ec w1,
    fs_directory_iterator p w = Throw (filesystem_error ec) w1 ->
    GetDirectories p w = Return [] w1;
  GetFiles_sentinel_start : forall p w ec w1,
    fs_directory_iterator p w = Throw (filesystem_error ec) w1 ->
    GetFiles p w = Return [] w1;
  GetDirectories_sentinel_entry : forall p w entries w1 collected ec w2,
    fs_directory_iterator p w = Return entries w1 ->
    scan_directories entries [] w1 =
      (collected, Throw (filesystem_error ec) w2) ->
    GetDirectories p w = Return collected w2;
  GetFiles_sentinel_entry : forall p w entries w1 collected ec w2,
    fs_directory_iterator p w = Return entries w1 ->
    scan_files entries [] w1 =
      (collected, Throw (filesystem_error ec) w2) ->
    GetFiles p w = Return collected w2
}.

(** The claim that a listing is empty whenever the platform failed during
    it. *)
Definition failed_listing_is_empty {W} (P : Platform W) : Prop :=
  forall p w entries w1 e ec w2 w3 directories,
    fs_directory_iterator p w = Return entries w1 ->
    In e entries ->
    directory_entry_status e w1 = Throw (filesystem_error ec) w2 ->
    GetDirectories p w = Return directories w3 ->
    directories = [].

(** ** Further notions *)

(** [l1] is [l2] with some elements left out. *)
Inductive subsequence {A : Type} : list A -> list A -> Prop :=
| subsequence_nil : subsequence [] []
| subsequence_skip : forall x l1 l2,
    subsequence l1 l2 -> subsequence l1 (x :: l2)
| subsequence_keep : forall x l1 l2,
    subsequence l1 l2 -> subsequence (x :: l1) (x :: l2).

(** The calls of [entry.status()] that a scan of [entries] started in [w]
    makes, each entry with the status the call gave it: the scan goes from
    entry to entry through the states the calls leave, up to the first
    call that raises. *)
Fixpoint scan_statuses {W} {P : Platform W} (entries : list directory_entry)
    (w : W) : list (directory_entry * file_status) :=
  match entries with
  | [] => []
  | e :: rest =>
      match directory_entry_status e w with
      | Return st w1 => (e, st) :: scan_statuses rest w1
      | Throw _ _ => []
      end
  end.

(** The entries of [seen] whose status [keep] accepts, as paths. *)
Definition kept (keep : file_status -> bool)
    (seen : list (directory_entry * file_status)) : list path :=
  map (fun es => entry_path (fst es)) (filter (fun es => keep (snd es)) seen).

(** The queries of one run of the buffer-sizing loop, as traced: each is
    on [h] with the current size; every query but the last returned a
    length above the size, which is the size of the next; the last returned
    a length that fits (zero, for a failure, included). *)
Fixpoint sizing_chain (h : HANDLE) (size : DWORD) (qs : list event) : Prop :=
  match qs with
  | [] => False
  | ev :: rest =>
      match ev with
      | EvGetFinalPathNameByHandle h' size' len =>
          h' = h /\ size' = size /\
          match rest with
          | [] => to_DWORD len <= size
          | _ :: _ => size < to_DWORD len /\
                      sizing_chain h (to_DWORD len) rest
          end
      | _ => False
      end
  end.

(** [GetFinalPathNameByHandle] writes into the buffer it is given: when the
    buffer holds at least [size] characters it comes back with the length
    it had. *)
Definition writes_in_place {W} (P : Platform W) : Prop :=
  forall h buffer size w len buffer1 w1,
    size <= Z.of_nat (length buffer) ->
    GetFinalPathNameByHandle h buffer size w = ((len, buffer1), w1) ->
    length buffer1 = length buffer.

(** As long as [I] holds, the final name of [file] has [n] characters:
    a query with room for them and the terminator returns [n], any other
    returns the room needed, [n + 1]. *)
Record stable_final_name {W} (P : Platform W) (file : HANDLE) (n : Z)
    (I : W -> Prop) : Prop := {
  stable_invariant : forall buffer size w r w1,
    I w -> GetFinalPathNameByHandle file buffer size w = (r, w1) -> I w1;
  stable_length : forall buffer size w len buffer1 w1,
    I w ->
    GetFinalPathNameByHandle file buffer size w = ((len, buffer1), w1) ->
    len = if n <? size then n else n + 1
}.

(** What a stream that stayed good has written can be read back, and a
    renamed file reads as it did under its old name. *)
Record stream_contract {W} (P : Platform W) : Prop := {
  written_is_read : forall q data w w1,
    ofstream_write q data w = Return goodbit w1 ->
    ifstream_read q w1 = Return data w1;
  renamed_is_read : forall from to w w2 data,
    ifstream_read from w = Return data w ->
    fs_rename from to w = Return tt w2 ->
    ifstream_read to w2 = Return data w2
}.

(** ** A reference platform that runs out of memory

    [MemFS] again, except that where [fs::create_directory], [fs::rename]
    and [entry.status()] would report a denied access they raise an
    exception that is not a [fs::filesystem_error]. *)
Definition out_of_memory {A} (m : M MemFS.state A) : M MemFS.state A :=
  fun w =>
  match m w with
  | Throw (filesystem_error permission_denied) w1 =>
      Throw other_std_exception w1
  | o => o
  end.

Definition exhausted_platform : Platform MemFS.state := {|
  ifstream_read := MemFS.read_stream;
  ofstream_write := MemFS.write_stream;
  fs_current_path := MemFS.current_path;
  fs_status := MemFS.status;
  fs_create_directory d := out_of_memory (MemFS.create_directory d);
  fs_rename from to := out_of_memory (MemFS.rename from to);
  fs_remove := MemFS.remove;
  fs_canonical := MemFS.canonical;
  fs_directory_iterator := MemFS.directory_iterator;
  directory_entry_status e := out_of_memory (MemFS.entry_status e);
  CreateFile := MemFS.create_file;
  GetFinalPathNameByHandle := MemFS.get_final_path_name;
  CloseHandle := MemFS.close_handle
|}.

(** ** The shared instance

    [FilesystemInterface::instance] is a static [std::shared_ptr], set by
    its initialiser to a new object.  An object is named by its rank among
    the objects [std::make_shared] has made. *)

Module Singleton.

Definition object := nat.

Record statics : Type := mkStatics {
  instance : option object;
  made : nat
}.

(** [std::make_shared<FilesystemInterface>()] *)
Definition make_shared (s : statics) : object * statics :=
  (made s, mkStatics (instance s) (S (made s))).

(** The initialiser of [instance]. *)
Definition static_init : statics :=
  let (o, s) := make_shared (mkStatics None 0) in
  mkStatics (Some o) (made s).

Definition GetInstance (s : statics) : object * statics :=
  match instance s with
  | Some o => (o, s)
  | None =>
      let (o, s1) := make_shared s in
      (o, mkStatics (Some o) (made s1))
  end.

End Singleton.

(** * Properties *)

(** ** Proof automation *)

(** Rewrites with the equation that names the result of the query of the
    current turn of the loop. *)
Ltac rewrite_query :=
  match goal with
  | E : GetFinalPathNameByHandle _ _ _ _ = _ |- _ => rewrite E
  end.

(** Runs the query named in [H] on the reference platform. *)
Ltac run_query H :=
  match type of H with
  | context [GetFinalPathNameByHandle ?h ?b ?n ?w] =>
      let E := fresh "E" in
      destruct (GetFinalPathNameByHandle h b n w) as [[? ?] ?] eqn:E;
      vm_compute in E; injection E as <- <- <-
  end.

(** Case analysis on the outermost test of the goal. *)
Ltac destruct_condition :=
  match goal with
  | |- context [if ?c then _ else _] => destruct c eqn:?
  end.

(** ** The reference platform

    [MemFS] meets the contracts of [fs::canonical], [fs::status] and
    [fs::create_directory]; a file written through a stream that stays
    good and then renamed reads back as written. *)

Section MemFSContracts.

Import MemFS.

Lemma resolve_is_absolute (w : state) (p : path) :
  is_absolute (resolve w p) = true.
Proof.
  unfold resolve. destruct (is_absolute p) eqn:E; [exact E |].
  destruct (String.eqb (cwd_tail w) ""); reflexivity.
Qed.

Lemma resolve_idempotent (w : state) (p : path) :
  resolve w (resolve w p) = resolve w p.
Proof.
  unfold resolve at 1. rewrite resolve_is_absolute. reflexivity.
Qed.

Lemma lookup_app (q : path) (l1 l2 : list (path * node)) :
  lookup q (l1 ++ l2) =
  match lookup q l1 with Some n => Some n | None => lookup q l2 end.
Proof.
  induction l1 as [| [k n] l1 IH]; cbn; [reflexivity |].
  destruct (String.eqb k q); [reflexivity | exact IH].
Qed.

Lemma lookup_remove_key_same (q : path) (l : list (path * node)) :
  lookup q (remove_key q l) = None.
Proof.
  induction l as [| [k n] l IH]; cbn; [reflexivity |].
  destruct (String.eqb k q) eqn:E; cbn; [exact IH |].
  rewrite E. exact IH.
Qed.

Lemma lookup_set_node_same (q : path) (n : node) (l : list (path * node)) :
  lookup q (set_node q n l) = Some n.
Proof.
  unfold set_node. rewrite lookup_app, lookup_remove_key_same. cbn.
  rewrite String.eqb_refl. reflexivity.
Qed.

Lemma canonical_of_absolute (w : state) (q : path) :
  is_absolute q = true ->
  canonical q w =
  if is_denied w q then Throw (filesystem_error permission_denied) w
  else match lookup q (nodes w) with
       | None => Throw (filesystem_error no_such_file_or_directory) w
       | Some _ => Return q w
       end.
Proof.
  intros Hq. unfold canonical, resolve. rewrite Hq.
  destruct q; [discriminate | reflexivity].
Qed.

Lemma MemFS_canonical_contract : canonical_contract platform.
Proof.
  split; cbn; unfold canonical, status.
  - intros p w st Hp. destruct (String.eqb_spec p ""); [contradiction |].
    destruct (is_denied w (resolve w p)); [discriminate |].
    intros [= <-]. unfold status_of.
    destruct (lookup (resolve w p) (nodes w)) as [[data |] |];
      try discriminate.
    eauto.
  - intros p w e w1.
    destruct (is_denied w _); [intros [= _ <-]; reflexivity |].
    destruct (lookup _ (nodes w)); [discriminate |].
    intros [= _ <-]. reflexivity.
  - intros p w q w1.
    set (r := if String.eqb p "" then String "/" (cwd_tail w)
              else resolve w p).
    assert (is_absolute r = true) as Hr.
    { subst r. destruct (String.eqb p "");
        [reflexivity | apply resolve_is_absolute]. }
    destruct (is_denied w r) eqn:Hd; [discriminate |].
    destruct (lookup r (nodes w)) eqn:Hl; [| discriminate].
    intros [= <- <-].
    change (canonical r w = Return r w).
    rewrite (canonical_of_absolute w r Hr), Hd, Hl. reflexivity.
Qed.

Lemma MemFS_directory_contract : directory_contract platform.
Proof.
  split; cbn.
  - intros p w o <-. unfold status.
    destruct (is_denied w (resolve w p)); reflexivity.
  - intros d w w1. unfold create_directory, status.
    destruct (is_denied w (resolve w d)) eqn:Hd; [discriminate |].
    destruct (lookup (resolve w d) (nodes w)) as [[data |] |];
      try discriminate.
    destruct (is_dir w (parent_path (resolve w d))); [| discriminate].
    intros [= <-].
    change (resolve (with_nodes w _) d) with (resolve w d).
    change (is_denied (with_nodes w _) (resolve w d))
      with (is_denied w (resolve w d)).
    rewrite Hd. unfold status_of. cbn [nodes with_nodes].
    rewrite lookup_set_node_same. reflexivity.
Qed.

End MemFSContracts.

Section MemFSRoundTrip.

Import MemFS.

Lemma length_append (s t : string) :
  String.length (s ++ t) = (String.length s + String.length t)%nat.
Proof.
  induction s as [| c s IH]; cbn; [reflexivity | rewrite IH; reflexivity].
Qed.

Lemma append_assoc (s t u : string) : (s ++ t) ++ u = s ++ (t ++ u).
Proof.
  induction s as [| c s IH]; cbn; [reflexivity | rewrite IH; reflexivity].
Qed.

Lemma append_nonempty_neq (s t : string) :
  (0 < String.length t)%nat -> s ++ t <> s.
Proof.
  intros Ht E. apply (f_equal String.length) in E.
  rewrite length_append in E. lia.
Qed.

Lemma substring_whole (n : nat) (s : string) :
  (String.length s <= n)%nat -> substring 0 n s = s.
Proof.
  revert n. induction s as [| c s IH]; intros [| n] H; cbn in *;
    try reflexivity; try lia.
  rewrite IH by lia. reflexivity.
Qed.

Lemma substring_length (n m : nat) (s : string) :
  (n + m <= String.length s)%nat -> String.length (substring n m s) = m.
Proof.
  revert n m. induction s as [| c s IH]; intros [| n] [| m] H; cbn in *;
    try reflexivity; try lia.
  - rewrite (IH 0%nat m) by lia. reflexivity.
  - apply IH. lia.
  - apply IH. lia.
Qed.

Lemma prefix_length (s t : string) :
  String.prefix s t = true -> (String.length s <= String.length t)%nat.
Proof.
  revert t. induction s as [| c s IH]; intros [| d t] H; cbn in *;
    try lia; try discriminate.
  destruct (ascii_dec c d); [| discriminate].
  apply IH in H. lia.
Qed.

Lemma resolve_temp_path (w : state) (p : path) :
  resolve w (p ++ ".new") = resolve w p ++ ".new".
Proof.
  unfold resolve. destruct p as [| c p]; cbn.
  - destruct (String.eqb (cwd_tail w) ""); cbn; [reflexivity |].
    rewrite append_assoc. reflexivity.
  - destruct (Ascii.eqb c "/"); [reflexivity |].
    destruct (String.eqb (cwd_tail w) ""); cbn; [reflexivity |].
    rewrite append_assoc. reflexivity.
Qed.

Lemma lookup_remove_key_other (q k : path) (l : list (path * node)) :
  k <> q -> lookup q (remove_key k l) = lookup q l.
Proof.
  intros Hne. induction l as [| [k' n] l IH]; cbn; [reflexivity |].
  destruct (String.eqb_spec k' k) as [-> | Hk]; cbn.
  - destruct (String.eqb_spec k q); [contradiction | exact IH].
  - destruct (String.eqb k' q); [reflexivity | exact IH].
Qed.

Lemma lookup_set_node_other (q k : path) (n : node)
    (l : list (path * node)) :
  k <> q -> lookup q (set_node k n l) = lookup q l.
Proof.
  intros Hne. unfold set_node.
  rewrite lookup_app, lookup_remove_key_other by assumption. cbn.
  destruct (String.eqb_spec k q); [contradiction |].
  destruct (lookup q l); reflexivity.
Qed.

(** Renaming [from] to [to] sends no key but [from] itself to [to]. *)
Lemma rebase_other (from to k : path) :
  k <> from -> k <> to -> rebase from to k <> to.
Proof.
  intros Hf Ht. unfold rebase.
  destruct (String.eqb_spec k from); [contradiction |].
  destruct (String.prefix (from ++ "/") k) eqn:Hp; [| assumption].
  apply prefix_length in Hp. rewrite length_append in Hp. cbn in Hp.
  apply append_nonempty_neq. rewrite substring_length; lia.
Qed.

Lemma write_stream_keeps_destination (p : path) (data : string)
    (w : state) (s : iostate) (w1 : state) :
  write_stream (p ++ ".new") data w = Return s w1 ->
  read_stream p w1 = Return (match read_stream p w with
                             | Return old _ => old
                             | Throw _ _ => ""
                             end) w1.
Proof.
  unfold write_stream. rewrite resolve_temp_path.
  destruct_condition.
  - intros [= <- <-]. unfold read_stream.
    destruct (is_denied w (resolve w p)); [reflexivity |].
    destruct (lookup (resolve w p) (nodes w)) as [[old |] |]; reflexivity.
  - intros [= <- <-]. unfold read_stream.
    change (resolve (mkState _ (cwd_tail w) _ _ _ _) p) with (resolve w p).
    unfold is_denied. cbn [denied nodes].
    rewrite lookup_set_node_other
      by (apply append_nonempty_neq; cbn; lia).
    destruct_condition; [reflexivity |].
    destruct (lookup (resolve w p) (nodes w)) as [[old |] |]; reflexivity.
Qed.

Lemma lookup_rebase_moved (from to : path) (n : node)
    (l : list (path * node)) :
  from <> to ->
  lookup from l = Some n ->
  lookup to (map (fun kn => (rebase from to (fst kn), snd kn))
                 (remove_key to l)) = Some n.
Proof.
  intros Hne. induction l as [| [k m] l IH]; cbn; [discriminate |].
  destruct (String.eqb_spec k from) as [-> | Hk].
  - intros [= ->].
    destruct (String.eqb_spec from to); [contradiction |]. cbn.
    unfold rebase. rewrite !String.eqb_refl. reflexivity.
  - intros Hl. destruct (String.eqb_spec k to) as [-> | Hk']; cbn.
    + apply IH, Hl.
    + destruct (String.eqb_spec (rebase from to k) to) as [E | _].
      * exfalso. revert E. apply rebase_other; assumption.
      * apply IH, Hl.
Qed.

(** A successful [fs::rename] of a file puts it at the target. *)
Lemma rename_moves_file (from to : path) (w w2 : state) (data : string) :
  lookup (resolve w from) (nodes w) = Some (File data) ->
  resolve w from <> resolve w to ->
  rename from to w = Return tt w2 ->
  read_stream to w2 = Return data w2.
Proof.
  intros Hl Hne. unfold rename. rewrite Hl.
  destruct (is_denied w (resolve w from) || is_denied w (resolve w to))
    eqn:Hd; [discriminate |].
  apply orb_false_elim in Hd. destruct Hd as [_ Hd].
  destruct (String.eqb_spec (resolve w from) (resolve w to));
    [contradiction |].
  destruct (negb (is_dir w (parent_path (resolve w to)))); [discriminate |].
  assert (forall w',
             w' = with_nodes w
                    (map (fun kn => (rebase (resolve w from) (resolve w to)
                                            (fst kn), snd kn))
                         (remove_key (resolve w to) (nodes w))) ->
             read_stream to w' = Return data w') as Hmoved.
  { intros w' ->. unfold read_stream.
    change (resolve (with_nodes w _) to) with (resolve w to).
    change (is_denied (with_nodes w _) (resolve w to))
      with (is_denied w (resolve w to)).
    rewrite Hd. cbn [nodes with_nodes].
    rewrite (lookup_rebase_moved _ _ (File data)) by assumption.
    reflexivity. }
  destruct (lookup (resolve w to) (nodes w)) as [[old |] |];
    try discriminate; intros [= <-]; apply Hmoved; reflexivity.
Qed.

Lemma MemFS_round_trip (p : path) (content : string) (w w1 w2 : state) :
  ofstream_write (p ++ ".new") (content ++ endl) w = Return goodbit w1 ->
  Write p content w = Return true w2 ->
  Read p w2 = Return (content ++ endl) w2.
Proof.
  intros Hs. unfold Write. rewrite Hs. revert Hs.
  cbn [ofstream_write platform]. unfold write_stream.
  destruct_condition; [discriminate |].
  destruct (String.length (content ++ endl) <=? free_space w)%nat eqn:Hroom;
    [| discriminate].
  apply Nat.leb_le in Hroom. rewrite substring_whole by assumption.
  intros [= <-].
  unfold Rename. cbn [fs_rename platform].
  match goal with
  | |- context [rename _ _ ?w1] =>
      destruct (rename _ _ w1) as [[] w3 | e w3] eqn:Hr
  end.
  - intros [= <-]. unfold Read. cbn [ifstream_read platform].
    erewrite rename_moves_file; [reflexivity | | | exact Hr].
    + change (resolve (mkState _ (cwd_tail w) _ _ _ _) (p ++ ".new"))
        with (resolve w (p ++ ".new")).
      cbn [nodes]. apply lookup_set_node_same.
    + change (resolve (mkState _ (cwd_tail w) _ _ _ _) (p ++ ".new"))
        with (resolve w (p ++ ".new")).
      change (resolve (mkState _ (cwd_tail w) _ _ _ _) p)
        with (resolve w p).
      rewrite resolve_temp_path. apply append_nonempty_neq. cbn. lia.
  - destruct (catches_filesystem_error e); discriminate.
Qed.

End MemFSRoundTrip.

(** ** [CanonicalUncPath] *)

Section Canonicalisation.

Context {W : Type} {P : Platform W}.

(** One turn of the loop, with the tests of the source. *)
Lemma query_final_path_turn (p : path) (file : HANDLE)
    (pathbuf : list ascii) (bufsize : DWORD) (w : W) :
  query_final_path p file pathbuf bufsize w =
  let '((len, pathbuf1), w1) :=
    GetFinalPathNameByHandle file
      (resize pathbuf (Z.to_nat (to_DWORD (bufsize + 1)))) bufsize w in
  if to_DWORD len =? 0 then Absolute p (snd (CloseHandle file w1))
  else if to_DWORD len <=? bufsize
       then Return (string_of_list_ascii pathbuf1)
                   (snd (CloseHandle file w1))
       else query_final_path p file pathbuf1 (to_DWORD len) w1.
Proof.
  funelim (query_final_path p file pathbuf bufsize w); rewrite_query.
  - rewrite e. cbn. destruct (CloseHandle file w1); reflexivity.
  - destruct (Z.eqb_spec (to_DWORD len) 0); [contradiction |].
    destruct (Z.leb_spec (to_DWORD len) bufsize); [| lia].
    destruct (CloseHandle file w1); reflexivity.
  - destruct (Z.eqb_spec (to_DWORD len) 0); [contradiction |].
    destruct (Z.leb_spec (to_DWORD len) bufsize); [lia |].
    reflexivity.
Qed.

Lemma query_final_path_last_query (p : path) (file : HANDLE)
    (pathbuf : list ascii) (bufsize : DWORD) (w : W) :
  0 <= bufsize ->
  exists pathbuf' bufsize' w2,
    grows_to file (pathbuf, bufsize, w) (pathbuf', bufsize', w2) /\
    let '((len, pathbuf1), w3) :=
      GetFinalPathNameByHandle file
        (resize pathbuf' (Z.to_nat (to_DWORD (bufsize' + 1)))) bufsize' w2 in
    to_DWORD len <= bufsize' /\
    query_final_path p file pathbuf bufsize w =
    if to_DWORD len =? 0
    then Absolute p (snd (CloseHandle file w3))
    else Return (string_of_list_ascii pathbuf1) (snd (CloseHandle file w3)).
Proof.
  funelim (query_final_path p file pathbuf bufsize w); intros Hpos.
  - exists pathbuf, bufsize, w. split; [apply grows_refl |].
    rewrite_query. split; [lia |].
    rewrite e. cbn. destruct (CloseHandle file w1); reflexivity.
  - exists pathbuf, bufsize, w. split; [apply grows_refl |].
    rewrite_query. split; [assumption |].
    destruct (Z.eqb_spec (to_DWORD len) 0); [contradiction |].
    destruct (CloseHandle file w1); reflexivity.
  - match goal with
    | IH : 0 <= to_DWORD len -> _ |- _ =>
        destruct IH as (pathbuf' & bufsize' & w2 & Hgrow & Hlast);
          [unfold to_DWORD;
           pose proof (Z.mod_pos_bound len DWORD_modulus eq_refl); lia |]
    end.
    exists pathbuf', bufsize', w2. split; [| exact Hlast].
    eapply grows_step; eauto. lia.
Qed.

(** [Absolute] never raises. *)
Lemma Absolute_returns (p : path) (w : W) :
  exists q w1, Absolute p w = Return q w1.
Proof.
  unfold Absolute. destruct (fs_canonical p w) as [q w1 | e w1]; cbn; eauto.
Qed.

End Canonicalisation.

(** C6.  [CanonicalUncPath(p)] is exactly [Absolute(p)], run once the
    handle has been closed, when [CreateFile] gives the invalid handle and
    when the query that ends the buffer-sizing loop returns zero; it is the
    path built from the buffer of that query only when the handle was
    opened and the query returned a length that is not zero and fits.  The
    loop always reaches such a last query. *)
Theorem CanonicalUncPath_falls_back_to_Absolute :
  forall (W : Type) (P : Platform W) (p : path) (w : W),
    let (file, w1) := CreateFile p w in
    (file = INVALID_HANDLE_VALUE ->
     CanonicalUncPath p w = Absolute p (snd (CloseHandle file w1))) /\
    (file <> INVALID_HANDLE_VALUE ->
     exists pathbuf bufsize w2,
       grows_to file
         ([], to_DWORD (Z.of_nat (String.length p) * 2), w1)
         (pathbuf, bufsize, w2) /\
       let '((len, pathbuf1), w3) :=
         GetFinalPathNameByHandle file
           (resize pathbuf (Z.to_nat (to_DWORD (bufsize + 1)))) bufsize w2 in
       to_DWORD len <= bufsize /\
       CanonicalUncPath p w =
       if to_DWORD len =? 0
       then Absolute p (snd (CloseHandle file w3))
       else Return (string_of_list_ascii pathbuf1)
                   (snd (CloseHandle file w3))).
Proof.
  intros W P p w. unfold CanonicalUncPath.
  destruct (CreateFile p w) as [file w1]. split.
  - intros ->. cbn. destruct (CloseHandle INVALID_HANDLE_VALUE w1).
    reflexivity.
  - intros Hvalid.
    destruct (Z.eqb_spec file INVALID_HANDLE_VALUE); [contradiction |].
    apply query_final_path_last_query.
    unfold to_DWORD.
    pose proof (Z.mod_pos_bound (Z.of_nat (String.length p) * 2)
                  DWORD_modulus eq_refl).
    lia.
Qed.

(** Nothing is called ["/nope"] on the reference volume, so [CreateFile]
    gives the invalid handle there; ["/srv"] exists and can be opened. *)
Lemma CanonicalUncPath_falls_back_to_Absolute_witness :
  CanonicalUncPath "/nope" MemFS.volume = Return "/nope" MemFS.volume /\
  exists q w, CanonicalUncPath "/srv" MemFS.volume = Return q w.
Proof.
  split.
  - pose proof (CanonicalUncPath_falls_back_to_Absolute
                  _ _ "/nope" MemFS.volume) as H.
    change (CreateFile "/nope" MemFS.volume)
      with (INVALID_HANDLE_VALUE, MemFS.volume) in H.
    cbv beta iota in H. destruct H as [H _].
    rewrite (H eq_refl). reflexivity.
  - pose proof (CanonicalUncPath_falls_back_to_Absolute
                  _ _ "/srv" MemFS.volume) as H.
    destruct (CreateFile "/srv" MemFS.volume) as [file w1] eqn:E.
    injection E as <- <-.
    destruct H as [_ H].
    destruct H as (pathbuf & bufsize & w2 & _ & H); [discriminate |].
    destruct (GetFinalPathNameByHandle _ _ _ w2) as [[len pathbuf1] w3].
    destruct H as [_ ->].
    destruct (to_DWORD len =? 0); [apply Absolute_returns | eauto].
Defined.

(** On the reference volume, ["/srv"] needs two turns of the loop: a size
    of eight characters is too small for the ten of the final name.
    The path returned is the whole buffer, trailing [NUL]s included. *)
Example CanonicalUncPath_two_turns :
  exists w,
    CanonicalUncPath "/srv" MemFS.volume =
      Return (MemFS.final_name "/srv" ++ String NUL (String NUL "")) w /\
    MemFS.handles w = [].
Proof.
  eexists. split; vm_compute; reflexivity.
Qed.

Section HandleScope.

Context {W : Type} {P : Platform W}.

Lemma Absolute_traced (p : path) (s : W * list event) :
  exists q w1 fallback,
    Absolute (P := traced P) p s = Return q (w1, (snd s ++ fallback)%list) /\
    Absolute p (fst s) = Return q w1 /\
    fallback = [EvCanonical p].
Proof.
  unfold Absolute. cbn. unfold recorded.
  destruct (fs_canonical p (fst s)) as [q w1 | e w1]; cbn; eauto 6.
Qed.

Lemma query_final_path_traced (p : path) (file : HANDLE)
    (pathbuf : list ascii) (bufsize : DWORD) (s : W * list event) :
  exists q w1 qs fallback,
    query_final_path (P := traced P) p file pathbuf bufsize s =
      Return q (w1, (snd s ++ qs ++ EvCloseHandle file :: fallback)%list) /\
    query_final_path p file pathbuf bufsize (fst s) = Return q w1 /\
    Forall (queries file) qs /\ qs <> [] /\
    (fallback = [] \/ fallback = [EvCanonical p]).
Proof.
  funelim (query_final_path (P := traced P) p file pathbuf bufsize s);
    rewrite (query_final_path_turn p file pathbuf bufsize);
    match goal with
    | E : GetFinalPathNameByHandle _ _ _ _ = _ |- _ =>
        cbn in E;
        destruct (GetFinalPathNameByHandle file
                    (resize pathbuf (Z.to_nat (to_DWORD (bufsize + 1))))
                    bufsize (fst w)) as [[len' buffer'] w'];
        injection E as -> -> <-
    end.
  - rewrite e. cbn.
    destruct (CloseHandle file w') as [ok w2]. cbn.
    destruct (Absolute_traced p
                (w2, ((snd w ++ [EvGetFinalPathNameByHandle file bufsize len])
                        ++ [EvCloseHandle file])%list))
      as (q & w3 & fb & E1 & E2 & ->).
    exists q, w3, [EvGetFinalPathNameByHandle file bufsize len],
      [EvCanonical p].
    rewrite E1. cbn [fst snd] in *. rewrite <- !app_assoc. cbn [app].
    repeat split; auto; [repeat constructor | discriminate].
  - destruct (Z.eqb_spec (to_DWORD len) 0); [contradiction |].
    destruct (Z.leb_spec (to_DWORD len) bufsize); [| lia].
    cbn. destruct (CloseHandle file w') as [ok w2]. cbn.
    exists (string_of_list_ascii pathbuf1), w2,
      [EvGetFinalPathNameByHandle file bufsize len], [].
    rewrite <- !app_assoc. cbn [app].
    repeat split; auto; [repeat constructor | discriminate].
  - destruct (Z.eqb_spec (to_DWORD len) 0); [contradiction |].
    destruct (Z.leb_spec (to_DWORD len) bufsize); [lia |].
    match goal with
    | IH : exists _, _ |- _ =>
        destruct IH as (q & w3 & qs & fb & E1 & E2 & Hqs & _ & Hfb)
    end.
    exists q, w3, (EvGetFinalPathNameByHandle file bufsize len :: qs), fb.
    rewrite E1. cbn [fst snd] in *. rewrite <- !app_assoc. cbn [app].
    repeat split; auto; [constructor; [reflexivity | assumption]
                        | discriminate].
Qed.

End HandleScope.

(** C9.  Every run of [CanonicalUncPath] returns, and the handle calls it
    makes are, in this order: one [CreateFile]; queries on the handle that
    [CreateFile] gave, none when that handle is the invalid one; one
    [CloseHandle], on that same handle; and after it nothing but the call
    of [fs::canonical] inside the [Absolute] fallback.  So on every way
    out the handle is closed before the caller is reached, and the only
    handle ever closed is the one this run obtained.  The traced run
    returns what the run on the bare platform returns. *)
Theorem CanonicalUncPath_closes_its_handle :
  forall (W : Type) (P : Platform W) (p : path) (w : W),
  exists q w1 h qs fallback,
    CanonicalUncPath (P := traced P) p (w, []) =
      Return q (w1, EvCreateFile p h :: qs ++ EvCloseHandle h :: fallback) /\
    CanonicalUncPath p w = Return q w1 /\
    h = fst (CreateFile p w) /\
    Forall (queries h) qs /\
    (h = INVALID_HANDLE_VALUE <-> qs = []) /\
    (fallback = [] \/ fallback = [EvCanonical p]).
Proof.
  intros W P p w. unfold CanonicalUncPath. cbn.
  destruct (CreateFile p w) as [file w1]. cbn.
  destruct (Z.eqb_spec file INVALID_HANDLE_VALUE) as [-> | Hvalid].
  - destruct (CloseHandle INVALID_HANDLE_VALUE w1) as [ok w2].
    destruct (Absolute_traced p
                (w2, [EvCreateFile p INVALID_HANDLE_VALUE;
                      EvCloseHandle INVALID_HANDLE_VALUE]))
      as (q & w3 & fb & E1 & E2 & ->).
    exists q, w3, INVALID_HANDLE_VALUE, [], [EvCanonical p].
    rewrite E1. cbn in *. repeat split; auto.
  - destruct (query_final_path_traced p file []
                (to_DWORD (Z.of_nat (String.length p) * 2))
                (w1, [EvCreateFile p file]))
      as (q & w3 & qs & fb & E1 & E2 & Hqs & Hne & Hfb).
    exists q, w3, file, qs, fb.
    rewrite E1. cbn in *. repeat split; auto; intros; contradiction.
Qed.

(** The run of [CanonicalUncPath "/srv"] on the reference volume, traced. *)
Lemma CanonicalUncPath_closes_its_handle_witness :
  exists q w1 h qs fallback,
    CanonicalUncPath (P := traced MemFS.platform) "/srv" (MemFS.volume, []) =
      Return q (w1, EvCreateFile "/srv" h :: qs ++ EvCloseHandle h :: fallback)
    /\ CanonicalUncPath "/srv" MemFS.volume = Return q w1
    /\ h = 100
    /\ Forall (queries h) qs
    /\ (h = INVALID_HANDLE_VALUE <-> qs = [])
    /\ (fallback = [] \/ fallback = [EvCanonical "/srv"]).
Proof.
  exact (CanonicalUncPath_closes_its_handle _ MemFS.platform "/srv"
           MemFS.volume).
Defined.

(** The calls of the two runs above, as traced: the second closes the
    invalid handle it was given and then falls back. *)
Example CanonicalUncPath_trace_opened :
  exists q w,
    CanonicalUncPath (P := traced MemFS.platform) "/srv" (MemFS.volume, [])
    = Return q (w, [EvCreateFile "/srv" 100;
                    EvGetFinalPathNameByHandle 100 8 11;
                    EvGetFinalPathNameByHandle 100 11 10;
                    EvCloseHandle 100]).
Proof.
  do 2 eexists. vm_compute. reflexivity.
Qed.

Example CanonicalUncPath_trace_not_opened :
  CanonicalUncPath (P := traced MemFS.platform) "/nope" (MemFS.volume, [])
  = Return "/nope"
      (MemFS.volume, [EvCreateFile "/nope" INVALID_HANDLE_VALUE;
                      EvCloseHandle INVALID_HANDLE_VALUE;
                      EvCanonical "/nope"]).
Proof.
  vm_compute. reflexivity.
Qed.

(** ** Platform failures *)

Section Absorption.

Context {W : Type} {P : Platform W}.

Lemma Remove_result (p : path) (w : W) :
  Remove p w =
  match fs_remove p w with
  | Return _ w1 => Return true w1
  | Throw (filesystem_error _) w1 => Return false w1
  | Throw other_std_exception w1 => Throw other_std_exception w1
  end.
Proof.
  unfold Remove. destruct (fs_remove p w) as [b w1 | [ec |] w1]; reflexivity.
Qed.

End Absorption.

(** C10.  [Remove] discards what [fs::remove] returns: whenever the
    primitive returns, also with [false] because the path was absent and
    nothing was removed, [Remove] is [true]; [Remove] is [false] only when
    the primitive raised a [fs::filesystem_error]. *)
Theorem Remove_true_when_absent :
  forall (W : Type) (P : Platform W) (p : path) (w : W),
    (forall removed w1,
        fs_remove p w = Return removed w1 -> Remove p w = Return true w1) /\
    (forall w1,
        Remove p w = Return false w1 ->
        exists ec, fs_remove p w = Throw (filesystem_error ec) w1).
Proof.
  intros W P p w. rewrite Remove_result. split.
  - intros removed w1 E. rewrite E. reflexivity.
  - intros w1. destruct (fs_remove p w) as [b w2 | [ec |] w2];
      intros E; try discriminate.
    injection E as <-. exists ec. reflexivity.
Qed.

(** On the reference volume nothing is called ["/srv/old"]: [fs::remove]
    answers [false], [Remove] answers [true], and the volume is as
    before. *)
Lemma Remove_true_when_absent_witness :
  fs_remove "/srv/old" MemFS.volume = Return false MemFS.volume /\
  Remove "/srv/old" MemFS.volume = Return true MemFS.volume.
Proof.
  split; [reflexivity |].
  apply (proj1 (Remove_true_when_absent _ _ "/srv/old" MemFS.volume) false).
  reflexivity.
Defined.

Section Sentinels.

Context {W : Type} {P : Platform W}.

Lemma CanonicalUncPath_returns (p : path) (w : W) :
  exists q w1, CanonicalUncPath p w = Return q w1.
Proof.
  unfold CanonicalUncPath. destruct (CreateFile p w) as [file w1].
  destruct (file =? INVALID_HANDLE_VALUE).
  - destruct (CloseHandle file w1). apply Absolute_returns.
  - destruct (query_final_path_last_query p file []
                (to_DWORD (Z.of_nat (String.length p) * 2)) w1)
      as (pathbuf & bufsize & w2 & _ & H).
    { unfold to_DWORD.
      pose proof (Z.mod_pos_bound (Z.of_nat (String.length p) * 2)
                    DWORD_modulus eq_refl).
      lia. }
    destruct (GetFinalPathNameByHandle _ _ _ w2) as [[len pathbuf1] w3].
    destruct H as [_ ->].
    destruct (to_DWORD len =? 0); [apply Absolute_returns | eauto].
Qed.

Lemma catch_filesystem_error_absorbs {A} (e : exception) (a : A) (w : W) :
  ~ propagates_failure
      (if catches_filesystem_error e then Return a w else Throw e w).
Proof.
  intros (ec & w1 & E). destruct e; cbn in E; discriminate.
Qed.

Lemma Return_absorbs {A} (a : A) (w : W) :
  ~ propagates_failure (Return a w).
Proof.
  intros (ec & w1 & E). discriminate.
Qed.

Lemma absorbs_failures_holds : absorbs_failures P.
Proof.
  split.
  - intros p w. unfold Read.
    destruct (ifstream_read p w); apply Return_absorbs.
  - intros p content w. unfold Write, Rename.
    destruct (ofstream_write _ _ w) as [s w1 | e w1];
      [| apply Return_absorbs].
    destruct (fs_rename _ _ w1);
      [apply Return_absorbs | apply catch_filesystem_error_absorbs].
  - intros dir w. unfold ChangeDirectory.
    destruct (fs_current_path dir w);
      [apply Return_absorbs | apply catch_filesystem_error_absorbs].
  - intros dir w. unfold DirectoryExists.
    destruct (fs_status dir w);
      [apply Return_absorbs | apply catch_filesystem_error_absorbs].
  - intros p w. unfold FileExists.
    destruct (fs_status p w);
      [apply Return_absorbs | apply catch_filesystem_error_absorbs].
  - intros dir w. unfold CreateDirectory.
    destruct (DirectoryExists dir w) as [[|] w1 | e w1];
      [apply Return_absorbs | | apply catch_filesystem_error_absorbs].
    destruct (fs_create_directory dir w1) as [[|] w2 | e w2];
      [apply Return_absorbs | apply Return_absorbs
       | apply catch_filesystem_error_absorbs].
  - intros from to w. unfold Rename.
    destruct (fs_rename from to w);
      [apply Return_absorbs | apply catch_filesystem_error_absorbs].
  - intros p w. unfold Remove.
    destruct (fs_remove p w);
      [apply Return_absorbs | apply catch_filesystem_error_absorbs].
  - intros p w. destruct (Absolute_returns p w) as (q & w1 & ->).
    apply Return_absorbs.
  - intros p w. destruct (CanonicalUncPath_returns p w) as (q & w1 & ->).
    apply Return_absorbs.
  - intros p w. unfold GetDirectories.
    destruct (fs_directory_iterator p w) as [entries w1 | e w1];
      [| apply catch_filesystem_error_absorbs].
    destruct (scan_directories entries [] w1) as [ds [u w2 | e w2]];
      [apply Return_absorbs | apply catch_filesystem_error_absorbs].
  - intros p w. unfold GetFiles.
    destruct (fs_directory_iterator p w) as [entries w1 | e w1];
      [| apply catch_filesystem_error_absorbs].
    destruct (scan_files entries [] w1) as [fs [u w2 | e w2]];
      [apply Return_absorbs | apply catch_filesystem_error_absorbs].
Qed.

Lemma returns_sentinels_holds : returns_sentinels P.
Proof.
  split.
  - intros p w e w1 E. unfold Read. rewrite E. reflexivity.
  - intros p content w e w1 E. unfold Write. rewrite E. reflexivity.
  - intros p content w s w1 ec w2 E1 E2. unfold Write, Rename.
    rewrite E1, E2. reflexivity.
  - intros dir w ec w1 E. unfold ChangeDirectory. rewrite E. reflexivity.
  - intros dir w ec w1 E. unfold DirectoryExists. rewrite E. reflexivity.
  - intros p w ec w1 E. unfold FileExists. rewrite E. reflexivity.
  - intros dir w w1 ec w2 E1 E2. unfold CreateDirectory.
    rewrite E1, E2. reflexivity.
  - intros from to w ec w1 E. unfold Rename. rewrite E. reflexivity.
  - intros p w ec w1 E. unfold Remove. rewrite E. reflexivity.
  - intros p w e w1 E. unfold Absolute. rewrite E. reflexivity.
  - intros p w w1 E. unfold CanonicalUncPath. rewrite E. cbn.
    destruct (CloseHandle INVALID_HANDLE_VALUE w1). reflexivity.
  - intros p w ec w1 E. unfold GetDirectories. rewrite E. reflexivity.
  - intros p w ec w1 E. unfold GetFiles. rewrite E. reflexivity.
  - intros p w entries w1 collected ec w2 E1 E2. unfold GetDirectories.
    rewrite E1, E2. reflexivity.
  - intros p w entries w1 collected ec w2 E1 E2. unfold GetFiles.
    rewrite E1, E2. reflexivity.
Qed.

End Sentinels.

(** C2, as stated, fails for the listings.  With access to
    [/srv/notes.txt] denied, the scan of [/srv] meets a
    [fs::filesystem_error] at its second entry; [GetDirectories] returns
    the directory it had already collected, not the empty list. *)
Lemma failed_listing_is_not_empty :
  ~ failed_listing_is_empty MemFS.platform.
Proof.
  intros H.
  specialize (H "/srv" MemFS.locked_volume _ _ "/srv/notes.txt"
                permission_denied _ _ _
                eq_refl (or_intror (or_introl eq_refl)) eq_refl eq_refl).
  discriminate H.
Qed.

(** C2, amended.  On every platform, no operation of the interface ends
    by raising a [fs::filesystem_error]; and when the primitive under an
    operation fails, [Read] returns the empty string, the boolean
    operations return [false], [Absolute] returns its argument,
    [CanonicalUncPath] falls back to [Absolute] when no handle could be
    opened, and the listings return what they had collected before the
    failure, which is the empty list when the scan could not start. *)
Theorem platform_failures_are_absorbed :
  forall (W : Type) (P : Platform W),
    absorbs_failures P /\ returns_sentinels P.
Proof.
  intros W P. split.
  - apply absorbs_failures_holds.
  - apply returns_sentinels_holds.
Qed.

(** Failures on the reference volume and on a platform that is out of
    memory, each with the value the caller gets. *)
Lemma platform_failures_are_absorbed_witness :
  Read (P := failing_platform other_std_exception) "f" tt = Return "" tt /\
  Write (P := failing_platform other_std_exception) "f" "x" tt
    = Return false tt /\
  (exists w, Write "/srv/web" "x" MemFS.volume = Return false w) /\
  ChangeDirectory "/nope" MemFS.volume = Return false MemFS.volume /\
  DirectoryExists "/srv/notes.txt" MemFS.locked_volume
    = Return false MemFS.locked_volume /\
  FileExists "/srv/notes.txt" MemFS.locked_volume
    = Return false MemFS.locked_volume /\
  CreateDirectory "/var/run" MemFS.volume = Return false MemFS.volume /\
  Rename "/nope" "/srv/x" MemFS.volume = Return false MemFS.volume /\
  Remove "/srv" MemFS.volume = Return false MemFS.volume /\
  Absolute "/nope" MemFS.volume = Return "/nope" MemFS.volume /\
  CanonicalUncPath "/nope" MemFS.volume = Return "/nope" MemFS.volume /\
  GetDirectories "/nope" MemFS.volume = Return [] MemFS.volume /\
  GetFiles "/nope" MemFS.volume = Return [] MemFS.volume /\
  GetDirectories "/srv" MemFS.locked_volume
    = Return ["/srv/web"] MemFS.locked_volume /\
  GetFiles "/srv" MemFS.locked_volume = Return [] MemFS.locked_volume.
Proof.
  pose proof (proj2 (platform_failures_are_absorbed _ MemFS.platform)) as S.
  pose proof (proj2 (platform_failures_are_absorbed
                       _ (failing_platform other_std_exception))) as F.
  repeat apply conj.
  - apply (Read_sentinel _ F "f" tt other_std_exception). reflexivity.
  - apply (Write_sentinel_stream _ F "f" "x" tt other_std_exception).
    reflexivity.
  - eexists.
    eapply (Write_sentinel_rename _ S "/srv/web" "x" MemFS.volume goodbit _
              is_a_directory); reflexivity.
  - apply (ChangeDirectory_sentinel _ S _ _ no_such_file_or_directory).
    reflexivity.
  - apply (DirectoryExists_sentinel _ S _ _ permission_denied). reflexivity.
  - apply (FileExists_sentinel _ S _ _ permission_denied). reflexivity.
  - apply (CreateDirectory_sentinel _ S _ _ MemFS.volume
             no_such_file_or_directory); reflexivity.
  - apply (Rename_sentinel _ S _ _ _ no_such_file_or_directory).
    reflexivity.
  - apply (Remove_sentinel _ S _ _ directory_not_empty). reflexivity.
  - apply (Absolute_sentinel _ S _ _ (filesystem_error
                                        no_such_file_or_directory)).
    reflexivity.
  - rewrite (CanonicalUncPath_sentinel _ S "/nope" MemFS.volume
               MemFS.volume eq_refl).
    reflexivity.
  - apply (GetDirectories_sentinel_start _ S _ _ not_a_directory).
    reflexivity.
  - apply (GetFiles_sentinel_start _ S _ _ not_a_directory). reflexivity.
  - apply (GetDirectories_sentinel_entry _ S "/srv" MemFS.locked_volume
             ["/srv/web"; "/srv/notes.txt"; "/srv/db"] MemFS.locked_volume
             ["/srv/web"] permission_denied); reflexivity.
  - apply (GetFiles_sentinel_entry _ S "/srv" MemFS.locked_volume
             ["/srv/web"; "/srv/notes.txt"; "/srv/db"] MemFS.locked_volume
             [] permission_denied); reflexivity.
Defined.

(** ** [Write] and the state of the stream

    [Write] guards the stream operations with a [catch], but a
    [std::ofstream] signals a failed open or a short write through its
    state bits, which [Write] never reads.  The rename therefore goes
    ahead after a write that failed. *)

(** C1.  The device has room for three bytes and [/srv/notes.txt] holds
    ["todo"].  [Write("/srv/notes.txt", "hello")] writes ["hel"] to the
    temporary file and the stream ends with [badbit]; up to there the
    destination is untouched.  Nothing is raised, so the rename is done:
    [Write] answers [true] and the destination holds the three bytes. *)
Theorem Write_renames_a_short_write :
  Read "/srv/notes.txt" MemFS.full_volume
    = Return "todo" MemFS.full_volume /\
  (exists w1,
     ofstream_write "/srv/notes.txt.new" ("hello" ++ endl) MemFS.full_volume
       = Return badbit w1 /\
     Read "/srv/notes.txt.new" w1 = Return "hel" w1 /\
     Read "/srv/notes.txt" w1 = Return "todo" w1) /\
  (exists w2,
     Write "/srv/notes.txt" "hello" MemFS.full_volume = Return true w2 /\
     Read "/srv/notes.txt" w2 = Return "hel" w2 /\
     FileExists "/srv/notes.txt.new" w2 = Return false w2).
Proof.
  split; [reflexivity |]. split; eexists; repeat split; reflexivity.
Qed.

(** C4.  On the same device, [Write("/srv/a.txt", "hello")] answers
    [true], and [Read("/srv/a.txt")] then yields ["hel"], which is not
    ["hello"] followed by the line terminator. *)
Theorem Write_true_then_Read_differs :
  exists w,
    Write "/srv/a.txt" "hello" MemFS.full_volume = Return true w /\
    Read "/srv/a.txt" w = Return "hel" w /\
    "hel" <> "hello" ++ endl.
Proof.
  eexists. repeat split; try reflexivity. discriminate.
Qed.

(** ** [Absolute] *)

(** C5, as stated, fails at the empty path.  Nothing exists under the
    empty path, but [fs::canonical] reads it as the current path: on the
    reference volume [Absolute("")] is ["/srv"], not [""]. *)
Lemma Absolute_of_empty_path :
  (fs_status "" MemFS.volume = Return type_not_found MemFS.volume /\
   DirectoryExists "" MemFS.volume = Return false MemFS.volume /\
   FileExists "" MemFS.volume = Return false MemFS.volume /\
   Absolute "" MemFS.volume = Return "/srv" MemFS.volume) /\
  ~ missing_path_comes_back (P := MemFS.platform).
Proof.
  split; [repeat split |].
  intros H. specialize (H "" MemFS.volume type_not_found eq_refl eq_refl).
  discriminate H.
Qed.

(** C5, amended.  For a platform whose [fs::canonical] meets its
    contract: [Absolute(p)] is [p] itself whenever canonicalisation
    raises, which it does when [p] is not empty and does not exist; and
    whatever [Absolute(p)] returns is returned unchanged by [Absolute]
    again. *)
Theorem Absolute_fallback_and_fixed_point :
  forall (W : Type) (P : Platform W),
    canonical_contract P ->
    forall (p : path) (w : W),
      (forall e w1, fs_canonical p w = Throw e w1 ->
                    Absolute p w = Return p w1) /\
      (p <> "" ->
       forall st, fs_status p w = Return st w -> fs_exists st = false ->
                  Absolute p w = Return p w) /\
      (forall q w1, Absolute p w = Return q w1 ->
                    Absolute q w1 = Return q w1).
Proof.
  intros W P HC p w. split; [| split].
  - intros e w1 E. unfold Absolute. rewrite E. reflexivity.
  - intros Hp st Hst Hex.
    destruct (canonical_missing P HC p w st Hp Hst Hex) as [ec E].
    unfold Absolute. rewrite E. reflexivity.
  - intros q w1. unfold Absolute at 1.
    destruct (fs_canonical p w) as [q' w2 | e w2] eqn:E; cbn.
    + intros [= <- <-]. unfold Absolute.
      rewrite (canonical_idempotent P HC p w q' w2 E). reflexivity.
    + intros [= <- <-].
      pose proof (canonical_error_pure P HC p w e w2 E) as ->.
      unfold Absolute. rewrite E. reflexivity.
Qed.

(** On the reference volume, whose working directory is [/srv]: the
    missing ["old"] comes back as it is; ["web"] resolves to ["/srv/web"]
    and the empty path to ["/srv"], and [Absolute] leaves both results
    alone. *)
Lemma Absolute_fallback_and_fixed_point_witness :
  Absolute "old" MemFS.volume = Return "old" MemFS.volume /\
  Absolute "web" MemFS.volume = Return "/srv/web" MemFS.volume /\
  Absolute "/srv/web" MemFS.volume = Return "/srv/web" MemFS.volume /\
  Absolute "/srv" MemFS.volume = Return "/srv" MemFS.volume.
Proof.
  pose proof (Absolute_fallback_and_fixed_point
                _ _ MemFS_canonical_contract) as H.
  split; [| split; [| split]].
  - apply (proj1 (proj2 (H "old" MemFS.volume)) ltac:(discriminate)
             type_not_found); reflexivity.
  - reflexivity.
  - apply (proj2 (proj2 (H "web" MemFS.volume))). reflexivity.
  - apply (proj2 (proj2 (H "" MemFS.volume))). reflexivity.
Defined.

(** ** [CreateDirectory] *)

Section ContractProperties.

Context {W : Type} {P : Platform W}.

Lemma DirectoryExists_world (d : path) (w : W) (b : bool) (w1 : W) :
  directory_contract P ->
  DirectoryExists d w = Return b w1 -> w1 = w.
Proof.
  intros HC. unfold DirectoryExists.
  pose proof (status_pure P HC d w _ eq_refl) as Hw.
  destruct (fs_status d w) as [st w2 | [ec |] w2]; cbn in *;
    intros [= _ <-]; exact Hw.
Qed.

End ContractProperties.

(** C7, as stated, fails: on the reference volume there is no [/var], so
    [fs::create_directory("/var/run")] raises and [CreateDirectory] answers
    [false]. *)
Lemma CreateDirectory_missing_parent :
  CreateDirectory "/var/run" MemFS.volume = Return false MemFS.volume /\
  ~ CreateDirectory_twice_true (P := MemFS.platform).
Proof.
  split; [reflexivity |].
  intros H. destruct (H "/var/run" MemFS.volume) as (w1 & w2 & E & _).
  discriminate E.
Qed.

(** C7, amended.  For a platform whose [fs::status] and
    [fs::create_directory] meet their contract: a directory that is
    already there makes [CreateDirectory] answer [true]; and whenever
    [CreateDirectory(d)] answers [true], [DirectoryExists(d)] is [true]
    afterwards and a second [CreateDirectory(d)] answers [true] again,
    leaving the filesystem as the first call left it. *)
Theorem CreateDirectory_idempotent :
  forall (W : Type) (P : Platform W),
    directory_contract P ->
    forall (d : path) (w : W),
      (forall w1, DirectoryExists d w = Return true w1 ->
                  CreateDirectory d w = Return true w1) /\
      (forall w1, CreateDirectory d w = Return true w1 ->
                  DirectoryExists d w1 = Return true w1 /\
                  CreateDirectory d w1 = Return true w1).
Proof.
  intros W P HC d w. split.
  - intros w1 E. unfold CreateDirectory. rewrite E. reflexivity.
  - intros w1 E.
    assert (DirectoryExists d w1 = Return true w1) as Hex.
    { unfold CreateDirectory in E.
      destruct (DirectoryExists d w) as [[|] w2 | e w2] eqn:Ed.
      - injection E as <-.
        pose proof (DirectoryExists_world d w true w2 HC Ed) as ->.
        exact Ed.
      - destruct (fs_create_directory d w2) as [[|] w3 | e w3] eqn:Ec.
        + injection E as <-. unfold DirectoryExists.
          rewrite (create_directory_post P HC d w2 w3 Ec). reflexivity.
        + discriminate.
        + destruct (catches_filesystem_error e); discriminate.
      - destruct (catches_filesystem_error e); discriminate. }
    split; [exact Hex |].
    unfold CreateDirectory. rewrite Hex. reflexivity.
Qed.

(** On the reference volume [/srv/web] is already a directory, and
    [/srv/log] can be created. *)
Lemma CreateDirectory_idempotent_witness :
  CreateDirectory "/srv/web" MemFS.volume = Return true MemFS.volume /\
  exists w1,
    CreateDirectory "/srv/log" MemFS.volume = Return true w1 /\
    DirectoryExists "/srv/log" w1 = Return true w1 /\
    CreateDirectory "/srv/log" w1 = Return true w1.
Proof.
  pose proof (CreateDirectory_idempotent _ _ MemFS_directory_contract) as H.
  split.
  - apply (proj1 (H "/srv/web" MemFS.volume)). reflexivity.
  - eexists. split; [reflexivity |].
    apply (proj2 (H "/srv/log" MemFS.volume)). reflexivity.
Defined.

(** ** [GetDirectories] and [GetFiles] *)

Section Listing.

Context {W : Type} {P : Platform W}.

Variable st : directory_entry -> file_status.

Lemma scan_directories_all (entries : list directory_entry)
    (directories : list path) (w : W) :
  (forall e, In e entries -> directory_entry_status e w = Return (st e) w) ->
  scan_directories entries directories w =
  ((directories ++ map entry_path (filter (listed_as_directory st) entries))%list,
   Return tt w).
Proof.
  revert directories.
  induction entries as [| e entries IH]; intros directories Hst; cbn.
  - rewrite app_nil_r. reflexivity.
  - rewrite (Hst e (or_introl eq_refl)). unfold listed_as_directory at 1.
    destruct (fs_is_directory (st e)); cbn.
    + rewrite IH by (intros; apply Hst; right; assumption).
      rewrite <- app_assoc. reflexivity.
    + apply IH. intros; apply Hst; right; assumption.
Qed.

Lemma scan_files_all (entries : list directory_entry)
    (files : list path) (w : W) :
  (forall e, In e entries -> directory_entry_status e w = Return (st e) w) ->
  scan_files entries files w =
  ((files ++ map entry_path (filter (listed_as_file st) entries))%list,
   Return tt w).
Proof.
  revert files.
  induction entries as [| e entries IH]; intros files Hst; cbn.
  - rewrite app_nil_r. reflexivity.
  - rewrite (Hst e (or_introl eq_refl)). unfold listed_as_file at 1.
    destruct (fs_is_directory (st e)); cbn.
    + apply IH. intros; apply Hst; right; assumption.
    + rewrite IH by (intros; apply Hst; right; assumption).
      rewrite <- app_assoc. reflexivity.
Qed.

Lemma scan_directories_aborted (pre : list directory_entry)
    (e : directory_entry) (post : list directory_entry)
    (directories : list path) (w : W) (ex : exception) (w1 : W) :
  (forall x, In x pre -> directory_entry_status x w = Return (st x) w) ->
  directory_entry_status e w = Throw ex w1 ->
  scan_directories (pre ++ e :: post)%list directories w =
  ((directories ++ map entry_path (filter (listed_as_directory st) pre))%list,
   Throw ex w1).
Proof.
  revert directories.
  induction pre as [| x pre IH]; intros directories Hst He; cbn.
  - rewrite He, app_nil_r. reflexivity.
  - rewrite (Hst x (or_introl eq_refl)). unfold listed_as_directory at 1.
    destruct (fs_is_directory (st x)); cbn.
    + rewrite IH by (auto; intros; apply Hst; right; assumption).
      rewrite <- app_assoc. reflexivity.
    + apply IH; auto. intros; apply Hst; right; assumption.
Qed.

Lemma scan_files_aborted (pre : list directory_entry)
    (e : directory_entry) (post : list directory_entry)
    (files : list path) (w : W) (ex : exception) (w1 : W) :
  (forall x, In x pre -> directory_entry_status x w = Return (st x) w) ->
  directory_entry_status e w = Throw ex w1 ->
  scan_files (pre ++ e :: post)%list files w =
  ((files ++ map entry_path (filter (listed_as_file st) pre))%list,
   Throw ex w1).
Proof.
  revert files.
  induction pre as [| x pre IH]; intros files Hst He; cbn.
  - rewrite He, app_nil_r. reflexivity.
  - rewrite (Hst x (or_introl eq_refl)). unfold listed_as_file at 1.
    destruct (fs_is_directory (st x)); cbn.
    + apply IH; auto. intros; apply Hst; right; assumption.
    + rewrite IH by (auto; intros; apply Hst; right; assumption).
      rewrite <- app_assoc. reflexivity.
Qed.

End Listing.

(** C3, as stated, fails.  With access to [/srv/notes.txt] denied, its
    status raises in the middle of the scan of [/srv]; the scan ends there
    and [/srv/db], which comes later and is a directory, is not listed. *)
Lemma GetDirectories_aborts_on_entry_error :
  (fs_directory_iterator "/srv" MemFS.locked_volume =
     Return ["/srv/web"; "/srv/notes.txt"; "/srv/db"] MemFS.locked_volume /\
   directory_entry_status "/srv/notes.txt" MemFS.locked_volume =
     Throw (filesystem_error permission_denied) MemFS.locked_volume /\
   directory_entry_status "/srv/db" MemFS.locked_volume =
     Return type_directory MemFS.locked_volume /\
   GetDirectories "/srv" MemFS.locked_volume =
     Return ["/srv/web"] MemFS.locked_volume) /\
  ~ per_entry_skip (P := MemFS.platform).
Proof.
  split; [repeat split |].
  intros H.
  specialize (H "/srv" MemFS.locked_volume _ _ "/srv/db" _ _ _
                eq_refl (or_intror (or_intror (or_introl eq_refl)))
                eq_refl eq_refl).
  cbn in H. destruct H as [H | []]. discriminate H.
Qed.

(** C3, amended.  When the status of an entry raises a
    [fs::filesystem_error], the scan ends at that entry: [GetDirectories]
    and [GetFiles] return, without raising, the entries before it that
    they classify as theirs, and nothing that comes after. *)
Theorem listing_stops_at_entry_error :
  forall (W : Type) (P : Platform W) (p : path) (w w1 w2 : W)
         (pre : list directory_entry) (e : directory_entry)
         (post : list directory_entry)
         (st : directory_entry -> file_status) (ec : errc),
    fs_directory_iterator p w = Return (pre ++ e :: post)%list w1 ->
    (forall x, In x pre -> directory_entry_status x w1 = Return (st x) w1) ->
    directory_entry_status e w1 = Throw (filesystem_error ec) w2 ->
    GetDirectories p w =
      Return (map entry_path (filter (listed_as_directory st) pre)) w2 /\
    GetFiles p w =
      Return (map entry_path (filter (listed_as_file st) pre)) w2.
Proof.
  intros W P p w w1 w2 pre e post st ec Hit Hpre He.
  unfold GetDirectories, GetFiles. rewrite Hit.
  rewrite (scan_directories_aborted st pre e post [] w1 _ w2 Hpre He).
  rewrite (scan_files_aborted st pre e post [] w1 _ w2 Hpre He).
  split; reflexivity.
Qed.

(** The scan of [/srv] on the volume where [/srv/notes.txt] is denied. *)
Lemma listing_stops_at_entry_error_witness :
  GetDirectories "/srv" MemFS.locked_volume =
    Return ["/srv/web"] MemFS.locked_volume /\
  GetFiles "/srv" MemFS.locked_volume = Return [] MemFS.locked_volume.
Proof.
  apply (listing_stops_at_entry_error _ _ "/srv" MemFS.locked_volume
           MemFS.locked_volume MemFS.locked_volume
           ["/srv/web"] "/srv/notes.txt" ["/srv/db"]
           (fun _ => type_directory) permission_denied).
  - reflexivity.
  - intros x [<- | []]. reflexivity.
  - reflexivity.
Defined.

(** C8, as stated, fails.  With access to [/srv/notes.txt] denied, the
    directory [/srv] still holds two directories and a file, but both
    scans end at the denied entry: [/srv/db], a child of [/srv], is in
    neither result. *)
Lemma listing_misses_children_after_error :
  (fs_directory_iterator "/srv" MemFS.locked_volume =
     Return ["/srv/web"; "/srv/notes.txt"; "/srv/db"] MemFS.locked_volume /\
   GetDirectories "/srv" MemFS.locked_volume =
     Return ["/srv/web"] MemFS.locked_volume /\
   GetFiles "/srv" MemFS.locked_volume = Return [] MemFS.locked_volume) /\
  ~ every_child_is_listed (P := MemFS.platform).
Proof.
  split; [repeat split |].
  intros H.
  destruct (H "/srv" MemFS.locked_volume _ _ _ _ _ _ "/srv/db"
              eq_refl eq_refl eq_refl
              (or_intror (or_intror (or_introl eq_refl))))
    as [[E | []] | []].
  discriminate E.
Qed.

(** C8, amended.  Take a directory whose scan yields [entries] and
    classifies each without error, with the status [st] gives it.  Then
    [GetDirectories] returns the entries that are directories and
    [GetFiles] the others, in scan order; every child is in one of the
    two lists, and none is in both. *)
Theorem listing_partition :
  forall (W : Type) (P : Platform W) (p : path) (w : W)
         (entries : list directory_entry)
         (st : directory_entry -> file_status),
    fs_directory_iterator p w = Return entries w ->
    (forall e, In e entries ->
               directory_entry_status e w = Return (st e) w) ->
    exists directories files,
      GetDirectories p w = Return directories w /\
      GetFiles p w = Return files w /\
      directories =
        map entry_path (filter (listed_as_directory st) entries) /\
      files = map entry_path (filter (listed_as_file st) entries) /\
      (forall child, In child (map entry_path entries) <->
                     In child directories \/ In child files) /\
      (forall child, ~ (In child directories /\ In child files)) /\
      Permutation (directories ++ files)%list (map entry_path entries).
Proof.
  intros W P p w entries st Hit Hst.
  exists (map entry_path (filter (listed_as_directory st) entries)),
         (map entry_path (filter (listed_as_file st) entries)).
  unfold GetDirectories, GetFiles. rewrite Hit.
  rewrite (scan_directories_all st entries [] w Hst).
  rewrite (scan_files_all st entries [] w Hst).
  unfold entry_path. rewrite !map_id. cbn [app].
  repeat split; try reflexivity.
  - intros Hin. unfold listed_as_file, listed_as_directory.
    destruct (fs_is_directory (st child)) eqn:E.
    + left. apply filter_In. split; assumption.
    + right. apply filter_In. split; [assumption |]. rewrite E. reflexivity.
  - intros [Hin | Hin]; apply filter_In in Hin; apply Hin.
  - intros child [HD HF]. apply filter_In in HD, HF.
    unfold listed_as_file, listed_as_directory in *.
    destruct HD as [_ HD]. destruct HF as [_ HF].
    rewrite HD in HF. discriminate.
  - clear Hit Hst. unfold listed_as_file, listed_as_directory.
    induction entries as [| e entries IH]; cbn; [constructor |].
    destruct (fs_is_directory (st e)); cbn.
    + constructor. exact IH.
    + apply Permutation_sym, Permutation_cons_app, Permutation_sym, IH.
Qed.

(** The directory [/srv] of the reference volume holds two directories and
    one file. *)
Lemma listing_partition_witness :
  exists directories files,
    GetDirectories "/srv" MemFS.volume = Return directories MemFS.volume /\
    GetFiles "/srv" MemFS.volume = Return files MemFS.volume /\
    directories = ["/srv/web"; "/srv/db"] /\
    files = ["/srv/notes.txt"] /\
    Permutation (directories ++ files)%list
                ["/srv/web"; "/srv/notes.txt"; "/srv/db"].
Proof.
  destruct (listing_partition _ _ "/srv" MemFS.volume
              ["/srv/web"; "/srv/notes.txt"; "/srv/db"]
              (MemFS.status_of MemFS.volume))
    as (directories & files & HD & HF & -> & -> & _ & _ & HP).
  - reflexivity.
  - intros e [<- | [<- | [<- | []]]]; reflexivity.
  - exists ["/srv/web"; "/srv/db"], ["/srv/notes.txt"].
    repeat split; assumption.
Defined.

(** ** A session on the reference volume

    The working directory is [/srv]: write [web/b.txt], read it back, rename
    it, and look for both names. *)
Example session :
  exists w1 w2,
    Write "web/b.txt" "hello" MemFS.volume = Return true w1 /\
    Read "web/b.txt" w1 = Return ("hello" ++ endl) w1 /\
    Rename "web/b.txt" "web/c.txt" w1 = Return true w2 /\
    FileExists "web/b.txt" w2 = Return false w2 /\
    FileExists "web/c.txt" w2 = Return true w2 /\
    DirectoryExists "web/c.txt" w2 = Return false w2.
Proof.
  do 2 eexists. repeat split; vm_compute; reflexivity.
Qed.

(** * Further properties *)

(** ** Existence tests *)

(** X1.  [DirectoryExists] answers [true] exactly when [fs::status]
    reports a directory, [FileExists] exactly when it reports a regular
    file; so the two are never both [true] of one path in one state, and
    both are [false] of a symbolic link, a device, or a path of unknown
    type. *)
Theorem exists_follow_status :
  forall (W : Type) (P : Platform W) (p : path) (w w1 w2 : W),
    (DirectoryExists p w = Return true w1 <->
     fs_status p w = Return type_directory w1) /\
    (FileExists p w = Return true w1 <->
     fs_status p w = Return type_regular w1) /\
    ~ (DirectoryExists p w = Return true w1 /\
       FileExists p w = Return true w2).
Proof.
  intros W P p w w1 w2. unfold DirectoryExists, FileExists.
  destruct (fs_status p w) as [st w3 | [ec |] w3]; cbn;
    repeat split; try discriminate; try (intros [? ?]; discriminate).
  - destruct st; cbn; intros [= <-]; try discriminate. reflexivity.
  - intros [= -> ->]. reflexivity.
  - destruct st; cbn; intros [= <-]; try discriminate. reflexivity.
  - intros [= -> ->]. reflexivity.
  - intros [H1 H2]. destruct st; cbn in *; discriminate.
Qed.

(** ** Exceptions *)

(** X3.  The other operations only handle [fs::filesystem_error]: an
    exception of another class raised by the primitive reaches the caller.
    For a listing this holds of the scan's start and of each entry, and the
    entries collected so far are lost with it. *)
Theorem other_exceptions_escape :
  forall (W : Type) (P : Platform W),
    (forall p content w s w1 w2,
        ofstream_write (p ++ ".new") (content ++ endl) w = Return s w1 ->
        fs_rename (p ++ ".new") p w1 = Throw other_std_exception w2 ->
        Write p content w = Throw other_std_exception w2) /\
    (forall dir w w1,
        fs_current_path dir w = Throw other_std_exception w1 ->
        ChangeDirectory dir w = Throw other_std_exception w1) /\
    (forall p w w1,
        fs_status p w = Throw other_std_exception w1 ->
        DirectoryExists p w = Throw other_std_exception w1 /\
        FileExists p w = Throw other_std_exception w1 /\
        CreateDirectory p w = Throw other_std_exception w1) /\
    (forall dir w w1 w2,
        DirectoryExists dir w = Return false w1 ->
        fs_create_directory dir w1 = Throw other_std_exception w2 ->
        CreateDirectory dir w = Throw other_std_exception w2) /\
    (forall from to w w1,
        fs_rename from to w = Throw other_std_exception w1 ->
        Rename from to w = Throw other_std_exception w1) /\
    (forall p w w1,
        fs_remove p w = Throw other_std_exception w1 ->
        Remove p w = Throw other_std_exception w1) /\
    (forall p w w1,
        fs_directory_iterator p w = Throw other_std_exception w1 ->
        GetDirectories p w = Throw other_std_exception w1 /\
        GetFiles p w = Throw other_std_exception w1) /\
    (forall p w w1 w2 pre e post st,
        fs_directory_iterator p w = Return (pre ++ e :: post)%list w1 ->
        (forall x, In x pre ->
                   directory_entry_status x w1 = Return (st x) w1) ->
        directory_entry_status e w1 = Throw other_std_exception w2 ->
        GetDirectories p w = Throw other_std_exception w2 /\
        GetFiles p w = Throw other_std_exception w2).
Proof.
  intros W P. repeat apply conj.
  - intros p content w s w1 w2 E1 E2. unfold Write, Rename.
    rewrite E1, E2. reflexivity.
  - intros dir w w1 E. unfold ChangeDirectory. rewrite E. reflexivity.
  - intros p w w1 E. unfold CreateDirectory, DirectoryExists, FileExists.
    rewrite E. repeat split; reflexivity.
  - intros dir w w1 w2 E1 E2. unfold CreateDirectory.
    rewrite E1, E2. reflexivity.
  - intros from to w w1 E. unfold Rename. rewrite E. reflexivity.
  - intros p w w1 E. unfold Remove. rewrite E. reflexivity.
  - intros p w w1 E. unfold GetDirectories, GetFiles. rewrite E.
    split; reflexivity.
  - intros p w w1 w2 pre e post st Hit Hpre He.
    unfold GetDirectories, GetFiles. rewrite Hit.
    rewrite (scan_directories_aborted st pre e post [] w1 _ w2 Hpre He).
    rewrite (scan_files_aborted st pre e post [] w1 _ w2 Hpre He).
    split; reflexivity.
Qed.

(** On a platform where every primitive raises [std::bad_alloc], and on
    the reference volume with [/srv/notes.txt] denied when the denial shows
    as an exception of another class. *)
Lemma other_exceptions_escape_witness :
  (exists w,
     Write (P := exhausted_platform) "/srv/notes.txt" "x" MemFS.locked_volume
     = Throw other_std_exception w) /\
  ChangeDirectory (P := failing_platform other_std_exception) "d" tt
    = Throw other_std_exception tt /\
  DirectoryExists (P := failing_platform other_std_exception) "d" tt
    = Throw other_std_exception tt /\
  CreateDirectory (P := exhausted_platform) "/srv/notes.txt"
    MemFS.locked_volume = Throw other_std_exception MemFS.locked_volume /\
  Rename (P := failing_platform other_std_exception) "a" "b" tt
    = Throw other_std_exception tt /\
  Remove (P := failing_platform other_std_exception) "a" tt
    = Throw other_std_exception tt /\
  GetFiles (P := failing_platform other_std_exception) "d" tt
    = Throw other_std_exception tt /\
  GetDirectories (P := exhausted_platform) "/srv" MemFS.locked_volume
    = Throw other_std_exception MemFS.locked_volume.
Proof.
  pose proof (other_exceptions_escape _ exhausted_platform)
    as (HW & _ & _ & HC & _ & _ & _ & HE).
  pose proof (other_exceptions_escape
                _ (failing_platform other_std_exception))
    as (_ & HD & HS & _ & HR & HRm & HL & _).
  repeat apply conj.
  - eexists.
    eapply (HW "/srv/notes.txt" "x" MemFS.locked_volume goodbit);
      reflexivity.
  - apply HD. reflexivity.
  - apply (HS "d" tt tt). reflexivity.
  - apply (HC _ _ MemFS.locked_volume); reflexivity.
  - apply HR. reflexivity.
  - apply HRm. reflexivity.
  - apply (HL "d" tt tt). reflexivity.
  - apply (HE "/srv" MemFS.locked_volume MemFS.locked_volume
              MemFS.locked_volume ["/srv/web"] "/srv/notes.txt" ["/srv/db"]
              (fun _ => type_directory)).
    + reflexivity.
    + intros x [<- | []]. reflexivity.
    + reflexivity.
Defined.

(** ** [Write] *)

(** X9.  [Write] answers [true] exactly when the stream operations
    returned and the rename of the temporary succeeded, and [false]
    exactly when the stream operations raised or the rename raised a
    [fs::filesystem_error]; the state in which the stream ended has no
    part in the answer. *)
Theorem Write_answer :
  forall (W : Type) (P : Platform W) (p : path) (content : string)
         (w w2 : W),
    (Write p content w = Return true w2 <->
     exists s w1,
       ofstream_write (p ++ ".new") (content ++ endl) w = Return s w1 /\
       fs_rename (p ++ ".new") p w1 = Return tt w2) /\
    (Write p content w = Return false w2 <->
     (exists e,
        ofstream_write (p ++ ".new") (content ++ endl) w = Throw e w2) \/
     (exists s w1 ec,
        ofstream_write (p ++ ".new") (content ++ endl) w = Return s w1 /\
        fs_rename (p ++ ".new") p w1 = Throw (filesystem_error ec) w2)).
Proof.
  intros W P p content w w2. unfold Write, Rename.
  destruct (ofstream_write (p ++ ".new") (content ++ endl) w)
    as [s w1 | e w1]; cbn.
  - destruct (fs_rename (p ++ ".new") p w1) as [[] w3 | [ec |] w3] eqn:Er;
      cbn; split; split.
    + intros [= <-]. eauto.
    + reflexivity || (intros (s' & w1' & [= <- <-] & E);
                      rewrite Er in E; injection E as <-; reflexivity).
    + discriminate.
    + intros [(e & E) | (s' & w1' & ec & [= <- <-] & E)];
        [discriminate | rewrite Er in E; discriminate].
    + discriminate.
    + intros (s' & w1' & [= <- <-] & E). rewrite Er in E. discriminate.
    + intros [= <-]. right. eauto 6.
    + reflexivity || (intros [(e & E) | (s' & w1' & ec' & [= <- <-] & E)];
                      [discriminate |
                       rewrite Er in E; injection E as <- <-; reflexivity]).
    + discriminate.
    + intros (s' & w1' & [= <- <-] & E). rewrite Er in E. discriminate.
    + discriminate.
    + intros [(e & E) | (s' & w1' & ec & [= <- <-] & E)];
        [discriminate | rewrite Er in E; discriminate].
  - split; split.
    + discriminate.
    + intros (s & w1' & E & _). discriminate.
    + intros [= <-]. left. eauto.
    + intros [(e' & [= <- <-]) | (s & w1' & ec & E & _)];
        [reflexivity | discriminate].
Qed.

(** ** The shared instance *)

(** X11.  [GetInstance] leaves [instance] set to the object it returns; a
    second call returns that object again and changes nothing; and an
    object is made only when [instance] was null, so the one made by the
    static initialiser is what every call returns. *)
Theorem GetInstance_is_a_singleton :
  forall s : Singleton.statics,
    let (o, s1) := Singleton.GetInstance s in
    Singleton.instance s1 = Some o /\
    Singleton.GetInstance s1 = (o, s1) /\
    (Singleton.instance s <> None -> s1 = s) /\
    (Singleton.instance s = None ->
     o = Singleton.made s /\ Singleton.made s1 = S (Singleton.made s)).
Proof.
  intros [[o |] n]; cbn; repeat split; try reflexivity;
    try discriminate; intros H; contradiction.
Qed.

(** After static initialisation, and after the instance has been reset. *)
Lemma GetInstance_is_a_singleton_witness :
  Singleton.GetInstance Singleton.static_init = (0%nat, Singleton.static_init)
  /\ fst (Singleton.GetInstance (Singleton.mkStatics None 1)) = 1%nat.
Proof.
  split.
  - pose proof (GetInstance_is_a_singleton Singleton.static_init) as H.
    cbn in H. apply H.
  - pose proof (GetInstance_is_a_singleton (Singleton.mkStatics None 1))
      as H.
    cbn in H. apply H. reflexivity.
Defined.

(** ** Listings on any platform *)

Section ListingSound.

Context {W : Type} {P : Platform W}.

Lemma subsequence_nil_l {A} (l : list A) : subsequence [] l.
Proof.
  induction l; constructor; assumption.
Qed.

Lemma subsequence_In {A} (l1 l2 : list A) (x : A) :
  subsequence l1 l2 -> In x l1 -> In x l2.
Proof.
  induction 1; cbn; intuition.
Qed.

Lemma subsequence_NoDup {A} (l1 l2 : list A) :
  subsequence l1 l2 -> NoDup l2 -> NoDup l1.
Proof.
  induction 1; intros Hnd; [constructor | |];
    inversion Hnd as [| y l Hy Hl]; subst; auto.
  constructor; auto.
  intros Hin. apply Hy. eapply subsequence_In; eassumption.
Qed.

Lemma kept_subsequence (keep : file_status -> bool)
    (seen : list (directory_entry * file_status)) :
  subsequence (kept keep seen) (map (fun es => entry_path (fst es)) seen).
Proof.
  unfold kept. induction seen as [| es seen IH]; cbn; [constructor |].
  destruct (keep (snd es)); cbn; constructor; exact IH.
Qed.

(** The statuses a scan obtains are those of a leading part of the
    entries. *)
Lemma scan_statuses_prefix (entries : list directory_entry) (w : W) :
  exists rest,
    map entry_path entries
    = (map (fun es => entry_path (fst es)) (scan_statuses entries w)
         ++ rest)%list.
Proof.
  revert w. induction entries as [| e entries IH]; intros w; cbn.
  - exists []. reflexivity.
  - destruct (directory_entry_status e w) as [st w1 | ex w1]; cbn.
    + destruct (IH w1) as [rest E]. exists rest. rewrite E. reflexivity.
    + eexists. reflexivity.
Qed.

Lemma subsequence_app_r {A} (l1 l2 rest : list A) :
  subsequence l1 l2 -> subsequence l1 (l2 ++ rest).
Proof.
  induction 1; cbn; [apply subsequence_nil_l | |]; constructor; assumption.
Qed.

Lemma scan_directories_kept (entries : list directory_entry)
    (directories : list path) (w : W) :
  fst (scan_directories entries directories w)
  = (directories ++ kept fs_is_directory (scan_statuses entries w))%list.
Proof.
  revert directories w.
  induction entries as [| e entries IH]; intros directories w; cbn.
  - rewrite app_nil_r. reflexivity.
  - destruct (directory_entry_status e w) as [st w1 | ex w1]; cbn.
    + unfold kept. cbn. destruct (fs_is_directory st); cbn.
      * rewrite IH, <- app_assoc. reflexivity.
      * apply IH.
    + rewrite app_nil_r. reflexivity.
Qed.

Lemma scan_files_kept (entries : list directory_entry)
    (files : list path) (w : W) :
  fst (scan_files entries files w)
  = (files ++ kept (fun st => negb (fs_is_directory st))
                   (scan_statuses entries w))%list.
Proof.
  revert files w.
  induction entries as [| e entries IH]; intros files w; cbn.
  - rewrite app_nil_r. reflexivity.
  - destruct (directory_entry_status e w) as [st w1 | ex w1]; cbn.
    + unfold kept. cbn. destruct (negb (fs_is_directory st)); cbn.
      * rewrite IH, <- app_assoc. reflexivity.
      * apply IH.
    + rewrite app_nil_r. reflexivity.
Qed.

Lemma kept_sound (keep : file_status -> bool) (entries : list path)
    (w : W) :
  subsequence (kept keep (scan_statuses entries w))
              (map entry_path entries) /\
  (NoDup (map entry_path entries) ->
   NoDup (kept keep (scan_statuses entries w))).
Proof.
  assert (subsequence (kept keep (scan_statuses entries w))
                      (map entry_path entries)) as Hsub.
  { destruct (scan_statuses_prefix entries w) as [rest ->].
    apply subsequence_app_r, kept_subsequence. }
  split; [exact Hsub | apply subsequence_NoDup, Hsub].
Qed.

End ListingSound.

(** X4.  Whatever the platform does during the scan (entries that fail,
    a filesystem that changes under it), what [GetDirectories] returns is
    exactly the entries to which the calls of [entry.status()] made in
    this scan, up to the first that raises, gave the status of a
    directory; [GetFiles] likewise, with a status that is not a directory.
    Either result is taken from the entries of the scan, in scan order and
    without repetition if the scan has none. *)
Theorem listings_are_sound :
  forall (W : Type) (P : Platform W) (p : path) (w w1 : W)
         (entries : list directory_entry),
    fs_directory_iterator p w = Return entries w1 ->
    (forall directories w2,
        GetDirectories p w = Return directories w2 ->
        directories = kept fs_is_directory (scan_statuses entries w1) /\
        subsequence directories (map entry_path entries) /\
        (NoDup (map entry_path entries) -> NoDup directories)) /\
    (forall files w2,
        GetFiles p w = Return files w2 ->
        files = kept (fun st => negb (fs_is_directory st))
                     (scan_statuses entries w1) /\
        subsequence files (map entry_path entries) /\
        (NoDup (map entry_path entries) -> NoDup files)).
Proof.
  intros W P p w w1 entries Hit. split.
  - intros directories w2. unfold GetDirectories. rewrite Hit.
    pose proof (scan_directories_kept entries [] w1) as E.
    pose proof (kept_sound fs_is_directory entries w1) as [Hsub Hnd].
    destruct (scan_directories entries [] w1) as [ds [u w3 | e w3]];
      cbn in E; subst ds.
    + intros [= <- <-]. repeat split; assumption.
    + destruct (catches_filesystem_error e); [| discriminate].
      intros [= <- <-]. repeat split; assumption.
  - intros files w2. unfold GetFiles. rewrite Hit.
    pose proof (scan_files_kept entries [] w1) as E.
    pose proof (kept_sound (fun st => negb (fs_is_directory st)) entries w1)
      as [Hsub Hnd].
    destruct (scan_files entries [] w1) as [fs [u w3 | e w3]];
      cbn in E; subst fs.
    + intros [= <- <-]. repeat split; assumption.
    + destruct (catches_filesystem_error e); [| discriminate].
      intros [= <- <-]. repeat split; assumption.
Qed.

(** The scan of [/srv] that stops at the denied [/srv/notes.txt]: one
    status was obtained, that of [/srv/web]. *)
Lemma listings_are_sound_witness :
  scan_statuses (P := MemFS.platform)
    ["/srv/web"; "/srv/notes.txt"; "/srv/db"] MemFS.locked_volume
    = [("/srv/web", type_directory)] /\
  ["/srv/web"]
    = kept fs_is_directory
        (scan_statuses (P := MemFS.platform)
           ["/srv/web"; "/srv/notes.txt"; "/srv/db"] MemFS.locked_volume) /\
  subsequence ["/srv/web"] ["/srv/web"; "/srv/notes.txt"; "/srv/db"] /\
  NoDup ["/srv/web"].
Proof.
  destruct (listings_are_sound _ MemFS.platform "/srv" MemFS.locked_volume
              MemFS.locked_volume
              ["/srv/web"; "/srv/notes.txt"; "/srv/db"] eq_refl)
    as [H _].
  destruct (H ["/srv/web"] MemFS.locked_volume eq_refl) as (H1 & H2 & H3).
  split; [reflexivity |]. split; [exact H1 |]. split; [exact H2 |].
  apply H3. repeat constructor; cbn; intuition discriminate.
Defined.

(** X5.  When the scan yields every entry with its status and
    [fs::status] of an entry's path agrees with [entry.status()], every
    path [GetDirectories] returns passes [DirectoryExists] and fails
    [FileExists]; every path [GetFiles] returns fails [DirectoryExists],
    and passes [FileExists] only if it is a regular file. *)
Theorem listings_agree_with_exists :
  forall (W : Type) (P : Platform W) (p : path) (w : W)
         (entries : list directory_entry)
         (st : directory_entry -> file_status),
    fs_directory_iterator p w = Return entries w ->
    (forall e, In e entries ->
               directory_entry_status e w = Return (st e) w /\
               fs_status (entry_path e) w = Return (st e) w) ->
    exists directories files,
      GetDirectories p w = Return directories w /\
      GetFiles p w = Return files w /\
      (forall d, In d directories ->
                 DirectoryExists d w = Return true w /\
                 FileExists d w = Return false w) /\
      (forall f, In f files ->
                 DirectoryExists f w = Return false w /\
                 FileExists f w = Return (fs_is_regular_file (st f)) w).
Proof.
  intros W P p w entries st Hit Hst.
  exists (map entry_path (filter (listed_as_directory st) entries)),
         (map entry_path (filter (listed_as_file st) entries)).
  unfold GetDirectories, GetFiles. rewrite Hit.
  rewrite (scan_directories_all st entries [] w)
    by (intros e He; apply (Hst e He)).
  rewrite (scan_files_all st entries [] w)
    by (intros e He; apply (Hst e He)).
  unfold entry_path in *. rewrite !map_id. cbn [app].
  repeat split; try reflexivity.
  - apply filter_In in H. destruct H as [Hin Hd].
    unfold DirectoryExists. rewrite (proj2 (Hst d Hin)).
    unfold listed_as_directory in Hd.
    destruct (st d); try discriminate. reflexivity.
  - apply filter_In in H. destruct H as [Hin Hd].
    unfold FileExists. rewrite (proj2 (Hst d Hin)).
    unfold listed_as_directory in Hd.
    destruct (st d); try discriminate. reflexivity.
  - apply filter_In in H. destruct H as [Hin Hd].
    unfold DirectoryExists. rewrite (proj2 (Hst f Hin)).
    unfold listed_as_file in Hd.
    destruct (st f); try discriminate; reflexivity.
  - apply filter_In in H. destruct H as [Hin Hd].
    unfold FileExists. rewrite (proj2 (Hst f Hin)).
    destruct (st f); reflexivity.
Qed.

(** The directory [/srv] of the reference volume. *)
Lemma listings_agree_with_exists_witness :
  exists directories files,
    GetDirectories "/srv" MemFS.volume = Return directories MemFS.volume /\
    GetFiles "/srv" MemFS.volume = Return files MemFS.volume /\
    (forall d, In d directories ->
               DirectoryExists d MemFS.volume = Return true MemFS.volume /\
               FileExists d MemFS.volume = Return false MemFS.volume) /\
    (forall f, In f files ->
               DirectoryExists f MemFS.volume = Return false MemFS.volume /\
               FileExists f MemFS.volume
               = Return (fs_is_regular_file
                           (MemFS.status_of MemFS.volume f)) MemFS.volume).
Proof.
  apply (listings_agree_with_exists _ MemFS.platform "/srv" MemFS.volume
           ["/srv/web"; "/srv/notes.txt"; "/srv/db"]
           (MemFS.status_of MemFS.volume)).
  - reflexivity.
  - intros e [<- | [<- | [<- | []]]]; split; reflexivity.
Defined.

(** ** The buffer-sizing loop *)

Section Sizing.

Context {W : Type} {P : Platform W}.

Lemma to_DWORD_range (z : Z) : 0 <= to_DWORD z < DWORD_modulus.
Proof.
  unfold to_DWORD. apply Z.mod_pos_bound. reflexivity.
Qed.

Lemma sizing_chain_length (h : HANDLE) (qs : list event) :
  forall size,
    0 <= size < DWORD_modulus ->
    sizing_chain h size qs ->
    Z.of_nat (length qs) <= DWORD_modulus - size.
Proof.
  induction qs as [| ev rest IH]; intros size Hsize; cbn [sizing_chain];
    [contradiction |].
  destruct ev as [| h' size' len | |]; try contradiction.
  intros (_ & _ & Hrest). destruct rest as [| ev' rest'].
  - cbn [length]. lia.
  - destruct Hrest as [Hlt Hchain].
    specialize (IH (to_DWORD len) (to_DWORD_range len) Hchain).
    cbn [length] in *. lia.
Qed.

Lemma query_final_path_chain (p : path) (file : HANDLE)
    (pathbuf : list ascii) (bufsize : DWORD) (s : W * list event) :
  0 <= bufsize ->
  exists q w1 qs fallback,
    query_final_path (P := traced P) p file pathbuf bufsize s =
      Return q (w1, (snd s ++ qs ++ EvCloseHandle file :: fallback)%list) /\
    sizing_chain file bufsize qs.
Proof.
  funelim (query_final_path (P := traced P) p file pathbuf bufsize s);
    intros Hpos;
    match goal with
    | E : GetFinalPathNameByHandle _ _ _ _ = _ |- _ =>
        cbn in E;
        destruct (GetFinalPathNameByHandle file
                    (resize pathbuf (Z.to_nat (to_DWORD (bufsize + 1))))
                    bufsize (fst w)) as [[len' buffer'] w'];
        injection E as -> -> <-
    end.
  - cbn. destruct (CloseHandle file w') as [ok w2]. cbn.
    destruct (Absolute_traced p
                (w2, ((snd w ++ [EvGetFinalPathNameByHandle file bufsize len])
                        ++ [EvCloseHandle file])%list))
      as (q & w3 & fb & E1 & _ & ->).
    exists q, w3, [EvGetFinalPathNameByHandle file bufsize len],
      [EvCanonical p].
    rewrite E1. cbn [fst snd]. rewrite <- !app_assoc. cbn.
    repeat split. rewrite e. exact Hpos.
  - cbn. destruct (CloseHandle file w') as [ok w2]. cbn.
    exists (string_of_list_ascii pathbuf1), w2,
      [EvGetFinalPathNameByHandle file bufsize len], [].
    rewrite <- !app_assoc. cbn. repeat split. assumption.
  - match goal with
    | IH : 0 <= to_DWORD len -> _ |- _ =>
        destruct (IH (proj1 (to_DWORD_range len)))
          as (q & w3 & qs & fb & E1 & Hchain)
    end.
    exists q, w3, (EvGetFinalPathNameByHandle file bufsize len :: qs), fb.
    rewrite E1. cbn [fst snd]. rewrite <- !app_assoc. cbn [app].
    split; [reflexivity |].
    cbn [sizing_chain]. repeat split.
    destruct qs as [| ev qs']; [cbn in Hchain; contradiction |].
    split; [lia | assumption].
Qed.

Lemma length_string_of_list_ascii (l : list ascii) :
  String.length (string_of_list_ascii l) = length l.
Proof.
  induction l as [| c l IH]; cbn; [reflexivity | rewrite IH; reflexivity].
Qed.

Lemma length_resize (v : list ascii) (n : nat) : length (resize v n) = n.
Proof.
  unfold resize. rewrite length_app, length_firstn, repeat_length. lia.
Qed.

End Sizing.

(** X6.  On every platform, once the handle is open the queries of a run
    follow the sizing protocol: the first has size twice the length of the
    path (as a [DWORD]); each later one has for size the length the one
    before returned, which was larger than its own size; the last returned
    a length that fits.  Sizes grow strictly below [2^32], which bounds the
    number of queries. *)
Theorem CanonicalUncPath_sizing_protocol :
  forall (W : Type) (P : Platform W) (p : path) (w : W),
    fst (CreateFile p w) <> INVALID_HANDLE_VALUE ->
    exists q w1 qs fallback,
      CanonicalUncPath (P := traced P) p (w, []) =
        Return q (w1, EvCreateFile p (fst (CreateFile p w))
                        :: qs ++ EvCloseHandle (fst (CreateFile p w))
                        :: fallback) /\
      sizing_chain (fst (CreateFile p w))
        (to_DWORD (Z.of_nat (String.length p) * 2)) qs /\
      Z.of_nat (length qs)
        <= DWORD_modulus - to_DWORD (Z.of_nat (String.length p) * 2).
Proof.
  intros W P p w. unfold CanonicalUncPath. cbn -[Z.sub Z.le DWORD_modulus].
  destruct (CreateFile p w) as [file w1]. cbn -[Z.sub Z.le DWORD_modulus].
  intros Hvalid.
  destruct (Z.eqb_spec file INVALID_HANDLE_VALUE); [contradiction |].
  destruct (query_final_path_chain p file []
              (to_DWORD (Z.of_nat (String.length p) * 2))
              (w1, [EvCreateFile p file])
              (proj1 (to_DWORD_range _)))
    as (q & w3 & qs & fb & E1 & Hchain).
  exists q, w3, qs, fb. rewrite E1. cbn [fst snd app].
  repeat split; [assumption |].
  eapply sizing_chain_length; [apply to_DWORD_range | eassumption].
Qed.

(** The two queries for ["/srv"] on the reference volume. *)
Lemma CanonicalUncPath_sizing_protocol_witness :
  exists q w1 qs fallback,
    CanonicalUncPath (P := traced MemFS.platform) "/srv" (MemFS.volume, []) =
      Return q (w1, EvCreateFile "/srv" 100
                      :: qs ++ EvCloseHandle 100 :: fallback) /\
    sizing_chain 100 8 qs /\
    Z.of_nat (length qs) <= DWORD_modulus - 8.
Proof.
  apply (CanonicalUncPath_sizing_protocol _ MemFS.platform "/srv"
           MemFS.volume).
  discriminate.
Defined.

(** X7.  For a platform that writes the name into the buffer it is given:
    when the handle was opened and the last query returned a length that
    is not zero, the path [CanonicalUncPath] returns is the whole buffer,
    of [bufsize + 1] characters; it is therefore longer than the length
    the query reported, by one character at least. *)
Theorem CanonicalUncPath_returns_whole_buffer :
  forall (W : Type) (P : Platform W),
    writes_in_place P ->
    forall (p : path) (w : W),
      fst (CreateFile p w) <> INVALID_HANDLE_VALUE ->
      exists pathbuf bufsize w2,
        grows_to (fst (CreateFile p w))
          ([], to_DWORD (Z.of_nat (String.length p) * 2),
           snd (CreateFile p w))
          (pathbuf, bufsize, w2) /\
        let '((len, pathbuf1), w3) :=
          GetFinalPathNameByHandle (fst (CreateFile p w))
            (resize pathbuf (Z.to_nat (to_DWORD (bufsize + 1)))) bufsize w2
        in
        to_DWORD len <> 0 ->
        bufsize + 1 < DWORD_modulus ->
        exists q w4,
          CanonicalUncPath p w = Return q w4 /\
          q = string_of_list_ascii pathbuf1 /\
          Z.of_nat (String.length q) = bufsize + 1 /\
          to_DWORD len < Z.of_nat (String.length q).
Proof.
  intros W P Hplace p w. unfold CanonicalUncPath.
  destruct (CreateFile p w) as [file w1]. cbn [fst snd]. intros Hvalid.
  destruct (Z.eqb_spec file INVALID_HANDLE_VALUE); [contradiction |].
  destruct (query_final_path_last_query p file []
              (to_DWORD (Z.of_nat (String.length p) * 2)) w1)
    as (pathbuf & bufsize & w2 & Hgrow & Hlast).
  { apply to_DWORD_range. }
  exists pathbuf, bufsize, w2. split; [exact Hgrow |].
  destruct (GetFinalPathNameByHandle file
              (resize pathbuf (Z.to_nat (to_DWORD (bufsize + 1))))
              bufsize w2) as [[len pathbuf1] w3] eqn:Eq.
  destruct Hlast as [Hfit ->]. intros Hlen Hroom.
  destruct (Z.eqb_spec (to_DWORD len) 0); [contradiction |].
  do 2 eexists. split; [reflexivity |]. split; [reflexivity |].
  pose proof (to_DWORD_range len) as Hr.
  assert (to_DWORD (bufsize + 1) = bufsize + 1) as Hsize.
  { unfold to_DWORD. apply Z.mod_small. lia. }
  assert (Z.of_nat (String.length (string_of_list_ascii pathbuf1))
          = bufsize + 1) as Hq.
  { assert (bufsize <= Z.of_nat
                         (length (resize pathbuf
                                    (Z.to_nat (to_DWORD (bufsize + 1))))))
      as Hle by (rewrite length_resize, Hsize; lia).
    rewrite length_string_of_list_ascii.
    rewrite (Hplace _ _ _ _ _ _ _ Hle Eq).
    rewrite length_resize, Hsize. lia. }
  split; [exact Hq | lia].
Qed.

Section MemFSQueries.

Import MemFS.

Lemma MemFS_writes_in_place : writes_in_place platform.
Proof.
  intros h buffer size w len buffer1 w1 Hsize.
  cbn [GetFinalPathNameByHandle platform]. unfold get_final_path_name.
  destruct (handle_path h (handles w)) as [q |];
    [| intros [= _ <- _]; reflexivity].
  remember (list_ascii_of_string (final_name q)) as s.
  destruct (Z.ltb_spec (Z.of_nat (length s)) size).
  - intros [= _ <- _]. rewrite length_app.
    change (length s + S (length (skipn (S (length s)) buffer))
            = length buffer)%nat.
    rewrite length_skipn. lia.
  - intros [= _ <- _]. reflexivity.
Qed.

Lemma MemFS_stable_final_name (h : HANDLE) (q : path) :
  stable_final_name platform h
    (Z.of_nat (length (list_ascii_of_string (final_name q))))
    (fun w => handle_path h (handles w) = Some q).
Proof.
  split; cbn [GetFinalPathNameByHandle platform];
    unfold get_final_path_name;
    remember (list_ascii_of_string (final_name q)) as s.
  - intros buffer size w r w1 Hq. rewrite Hq, <- Heqs.
    destruct (_ <? size); intros [= _ <-]; exact Hq.
  - intros buffer size w len buffer1 w1 Hq. rewrite Hq, <- Heqs.
    destruct (_ <? size); intros [= <- _ _]; reflexivity.
Qed.

End MemFSQueries.

(** The second query for ["/srv"] on the reference volume fills a buffer
    of twelve characters with a name of ten. *)
Lemma CanonicalUncPath_returns_whole_buffer_witness :
  exists q w,
    CanonicalUncPath "/srv" MemFS.volume = Return q w /\
    String.length q = 12%nat.
Proof.
  destruct (CanonicalUncPath_returns_whole_buffer
              _ MemFS.platform MemFS_writes_in_place "/srv" MemFS.volume)
    as (pathbuf & bufsize & w2 & Hgrow & H); [discriminate |].
  cbn [fst snd] in Hgrow.
  assert (forall z, 0 < z < DWORD_modulus -> to_DWORD z <> 0) as Hnz.
  { intros z Hz. unfold to_DWORD. rewrite Z.mod_small; lia. }
  inversion Hgrow as [| ? ? ? len1 buf1 w1' ? E1 Hn1 Hlt1 Hgrow1]; subst.
  - exfalso. run_query H.
    destruct (H (Hnz 11 ltac:(split; reflexivity)) eq_refl)
      as (q & w & _ & _ & Hq & Hlt).
    rewrite Hq in Hlt. vm_compute in Hlt. discriminate Hlt.
  - vm_compute in E1. injection E1 as <- <- <-.
    inversion Hgrow1 as [| ? ? ? len2 buf2 w2' ? E2 Hn2 Hlt2 Hgrow2]; subst.
    + run_query H.
      destruct (H (Hnz 10 ltac:(split; reflexivity)) eq_refl)
        as (q & w & E & _ & Hq & _).
      exists q, w. split; [exact E |]. apply Nat2Z.inj. rewrite Hq.
      reflexivity.
    + exfalso. vm_compute in E2. injection E2 as <- <- <-.
      vm_compute in Hlt2. discriminate.
Defined.

Section TwoQueries.

Context {W : Type} {P : Platform W}.

Lemma traced_query (file : HANDLE) (buffer : list ascii) (size : DWORD)
    (s : W * list event) :
  GetFinalPathNameByHandle (Platform := traced P) file buffer size s =
  let '((len, buffer1), w1) :=
    GetFinalPathNameByHandle file buffer size (fst s) in
  ((len, buffer1),
   (w1, (snd s ++ [EvGetFinalPathNameByHandle file size len])%list)).
Proof.
  reflexivity.
Qed.

Lemma traced_close (file : HANDLE) (s : W * list event) :
  snd (CloseHandle (Platform := traced P) file s) =
  (snd (CloseHandle file (fst s)), (snd s ++ [EvCloseHandle file])%list).
Proof.
  cbn. destruct (CloseHandle file (fst s)). reflexivity.
Qed.

Lemma query_final_path_two_turns (p : path) (file : HANDLE) (n : Z)
    (I : W -> Prop) (pathbuf : list ascii) (bufsize : DWORD)
    (s : W * list event) :
  stable_final_name P file n I ->
  0 < n -> n + 1 < DWORD_modulus ->
  I (fst s) ->
  exists pathbuf1 w1 qs,
    query_final_path (P := traced P) p file pathbuf bufsize s =
      Return (string_of_list_ascii pathbuf1)
             (w1, (snd s ++ qs ++ [EvCloseHandle file])%list) /\
    qs = (if n <? bufsize
          then [EvGetFinalPathNameByHandle file bufsize n]
          else [EvGetFinalPathNameByHandle file bufsize (n + 1);
                EvGetFinalPathNameByHandle file (n + 1) n]).
Proof.
  intros HS Hn Hmax HI.
  assert (to_DWORD n = n) as En
    by (unfold to_DWORD; apply Z.mod_small; lia).
  assert (to_DWORD (n + 1) = n + 1) as En1
    by (unfold to_DWORD; apply Z.mod_small; lia).
  rewrite query_final_path_turn, traced_query.
  destruct (GetFinalPathNameByHandle file
              (resize pathbuf (Z.to_nat (to_DWORD (bufsize + 1))))
              bufsize (fst s)) as [[len buf1] w1] eqn:E1.
  pose proof (stable_length P file n I HS _ _ _ _ _ _ HI E1) as Hlen.
  pose proof (stable_invariant P file n I HS _ _ _ _ _ HI E1) as HI1.
  destruct (Z.ltb_spec n bufsize) as [Hroom | Hsmall]; subst len.
  - rewrite En. destruct (Z.eqb_spec n 0); [lia |].
    destruct (Z.leb_spec n bufsize); [| lia].
    rewrite traced_close. cbn [fst snd].
    do 3 eexists. split; [| reflexivity].
    rewrite <- !app_assoc. reflexivity.
  - rewrite En1. destruct (Z.eqb_spec (n + 1) 0); [lia |].
    destruct (Z.leb_spec (n + 1) bufsize); [lia |].
    rewrite query_final_path_turn, traced_query. cbn [fst snd].
    destruct (GetFinalPathNameByHandle file
                (resize buf1 (Z.to_nat (to_DWORD (n + 1 + 1))))
                (n + 1) w1) as [[len2 buf2] w2] eqn:E2.
    pose proof (stable_length P file n I HS _ _ _ _ _ _ HI1 E2) as Hlen2.
    destruct (Z.ltb_spec n (n + 1)); [| lia]. subst len2.
    rewrite En. destruct (Z.eqb_spec n 0); [lia |].
    destruct (Z.leb_spec n (n + 1)); [| lia].
    rewrite traced_close. cbn [fst snd].
    do 3 eexists. split; [| reflexivity].
    rewrite <- !app_assoc. reflexivity.
Qed.

End TwoQueries.

(** X8.  When the final name of the opened handle keeps its length [n]
    (not zero, and [n + 1] a [DWORD]) and the platform answers each query
    as the API is documented to, [CanonicalUncPath] makes one query if [n]
    is below twice the length of the path and two otherwise, closes the
    handle and returns the buffer: it never falls back to [Absolute]. *)
Theorem CanonicalUncPath_two_queries :
  forall (W : Type) (P : Platform W) (p : path) (w : W) (n : Z)
         (I : W -> Prop),
    fst (CreateFile p w) <> INVALID_HANDLE_VALUE ->
    stable_final_name P (fst (CreateFile p w)) n I ->
    I (snd (CreateFile p w)) ->
    0 < n -> n + 1 < DWORD_modulus ->
    exists pathbuf1 w1 qs,
      CanonicalUncPath (P := traced P) p (w, []) =
        Return (string_of_list_ascii pathbuf1)
               (w1, EvCreateFile p (fst (CreateFile p w))
                      :: qs ++ [EvCloseHandle (fst (CreateFile p w))]) /\
      length qs =
      if n <? to_DWORD (Z.of_nat (String.length p) * 2)
      then 1%nat else 2%nat.
Proof.
  intros W P p w n I. unfold CanonicalUncPath.
  cbn [CreateFile traced fst snd].
  destruct (CreateFile p w) as [file w1]. cbn [fst snd app].
  intros Hvalid HS HI Hn Hmax.
  destruct (Z.eqb_spec file INVALID_HANDLE_VALUE); [contradiction |].
  destruct (query_final_path_two_turns p file n I []
              (to_DWORD (Z.of_nat (String.length p) * 2))
              (w1, [EvCreateFile p file]) HS Hn Hmax HI)
    as (pathbuf1 & w2 & qs & E & Hqs).
  exists pathbuf1, w2, qs. rewrite E. cbn [fst snd app].
  split; [reflexivity |].
  destruct (n <? to_DWORD (Z.of_nat (String.length p) * 2));
    subst qs; reflexivity.
Qed.

(** ["/srv"] on the reference volume: a final name of ten characters and
    a first size of eight. *)
Lemma CanonicalUncPath_two_queries_witness :
  exists pathbuf1 w1 qs,
    CanonicalUncPath (P := traced MemFS.platform) "/srv" (MemFS.volume, []) =
      Return (string_of_list_ascii pathbuf1)
             (w1, EvCreateFile "/srv" 100 :: qs ++ [EvCloseHandle 100]) /\
    length qs = 2%nat.
Proof.
  apply (CanonicalUncPath_two_queries _ MemFS.platform "/srv" MemFS.volume
           10 (fun w => MemFS.handle_path 100 (MemFS.handles w)
                        = Some "/srv")).
  - discriminate.
  - exact (MemFS_stable_final_name 100 "/srv").
  - reflexivity.
  - reflexivity.
  - reflexivity.
Defined.

(** ** The round trip *)

Section MemFSStreams.

Import MemFS.

Lemma MemFS_stream_contract : stream_contract platform.
Proof.
  split; cbn [ofstream_write ifstream_read fs_rename platform].
  - intros q data w w1. unfold write_stream.
    destruct (is_denied w (resolve w q)) eqn:Hd; [discriminate |].
    cbn [orb].
    destruct (is_dir w (resolve w q)
              || negb (is_dir w (parent_path (resolve w q))));
      [discriminate |].
    destruct (String.length data <=? free_space w)%nat eqn:Hroom;
      [| discriminate].
    apply Nat.leb_le in Hroom. rewrite substring_whole by assumption.
    intros [= <-]. unfold read_stream.
    change (resolve (mkState _ (cwd_tail w) _ _ _ _) q) with (resolve w q).
    unfold is_denied in *. cbn [denied nodes]. rewrite Hd.
    rewrite lookup_set_node_same. reflexivity.
  - intros from to w w2 data. unfold read_stream at 1, rename.
    destruct (is_denied w (resolve w from)) eqn:Hdf;
      [cbn [orb]; discriminate |].
    cbn [orb].
    destruct (is_denied w (resolve w to)) eqn:Hdt; [discriminate |].
    destruct (lookup (resolve w from) (nodes w)) as [n |] eqn:Hl;
      [| discriminate].
    intros Hdata.
    assert (data = match n with File d => d | Dir => "" end) as ->
      by (destruct n; injection Hdata; auto).
    clear Hdata.
    destruct (String.eqb_spec (resolve w from) (resolve w to)) as [E | Hne].
    + intros [= <-]. unfold read_stream. rewrite <- E, Hdf, Hl.
      destruct n; reflexivity.
    + destruct (negb (is_dir w (parent_path (resolve w to))));
        [discriminate |].
      assert (forall w',
                 w' = with_nodes w
                        (map (fun kn => (rebase (resolve w from)
                                           (resolve w to) (fst kn), snd kn))
                             (remove_key (resolve w to) (nodes w))) ->
                 read_stream to w'
                 = Return match n with File d => d | Dir => "" end w')
        as Hmoved.
      { intros w' ->. unfold read_stream.
        change (resolve (with_nodes w _) to) with (resolve w to).
        change (is_denied (with_nodes w _) (resolve w to))
          with (is_denied w (resolve w to)).
        rewrite Hdt. cbn [nodes with_nodes].
        rewrite (lookup_rebase_moved _ _ n) by assumption.
        destruct n; reflexivity. }
      destruct n as [d |];
        destruct (lookup (resolve w to) (nodes w)) as [[old |] |];
        try discriminate; intros [= <-]; apply Hmoved; reflexivity.
Qed.

End MemFSStreams.

(** X10.  On a platform where what a good stream wrote can be read back
    and a renamed file reads as before: if the stream of [Write(p, c)]
    ended good and [Write] answered [true], then [Read(p)] returns [c]
    followed by the line terminator. *)
Theorem Write_Read_round_trip :
  forall (W : Type) (P : Platform W),
    stream_contract P ->
    forall (p : path) (content : string) (w w1 w2 : W),
      ofstream_write (p ++ ".new") (content ++ endl) w = Return goodbit w1 ->
      Write p content w = Return true w2 ->
      Read p w2 = Return (content ++ endl) w2.
Proof.
  intros W P HC p content w w1 w2 Hs. unfold Write, Rename. rewrite Hs.
  destruct (fs_rename (p ++ ".new") p w1) as [[] w3 | e w3] eqn:Hr.
  - intros [= <-]. unfold Read.
    rewrite (renamed_is_read P HC _ _ _ _ _
               (written_is_read P HC _ _ _ _ Hs) Hr).
    reflexivity.
  - destruct (catches_filesystem_error e); discriminate.
Qed.

(** Writing [web/b.txt] on the reference volume. *)
Lemma Write_Read_round_trip_witness :
  exists w2,
    Write "web/b.txt" "hello" MemFS.volume = Return true w2 /\
    Read "web/b.txt" w2 = Return ("hello" ++ endl) w2.
Proof.
  eexists. split; [reflexivity |].
  eapply (Write_Read_round_trip _ MemFS.platform MemFS_stream_contract
            "web/b.txt" "hello" MemFS.volume); reflexivity.
Defined.
